(** * Chunk generation worker (src/chunkWorker.ts)

    A shallow embedding of the voxel chunk generator: the grid allocator,
    the resource, terrain and tree stages, and the orchestrator
    [generateChunk], followed by the properties of the specification that
    were checked against them.

    Modelling conventions.
    - JavaScript numbers that hold sizes, loop counters and array indices
      are integers ([Z]).
    - The numbers of the noise side of the program (coordinates, scales,
      offsets, magnitudes, samples, thresholds) are IEEE 754 binary64
      values ([float]) and are combined with the binary64 operations,
      rounding, infinities and NaN included; a comparison with NaN is
      false.  [Math.floor] of such a number is NaN, an infinity or an
      integer; clamped by [Math.max(0, Math.min(., top))] it is NaN or an
      integer.
    - The draws of [rng.random()] and the canopy density are the rationals
      that the doubles denote ([Q]): they are compared with each other,
      and a draw is scaled by the width of an integer range and rounded
      to an integer, of which the properties below use the bounds only.
    - A JavaScript array is an object whose integer keys map to values.
      The source never reads [length], so an array is a finite map from
      [Z]; the grid [BlockID[][][]] is a map of maps of maps.  Reading a
      missing key gives [undefined] ([None]); indexing [undefined] throws
      a [TypeError]; assigning to a missing key of an existing row creates
      the key.  Sub-arrays are values: two planes never share a row.
    - The grid [input] and the generator [rng] are mutated in place by the
      source; they are the two components of the state of a state and
      exception monad.  A third, ghost component records every assignment
      to a grid cell; no branch of the program reads it. *)

From Stdlib Require Import ZArith QArith Qround Lia List String.
From Stdlib Require Import Floats.
From stdpp Require Import base option list list_numbers gmap.

Local Open Scope Z_scope.

(** ** Block identifiers *)

(** Modelled from the spec: the enumeration [BlockID] of [./Block] is not
    part of the sources at hand.  Section 3 lists the materials Air,
    Bedrock, Stone, Dirt, Grass, OakLog and Leaves, plus one identifier per
    configured resource. *)
Inductive BlockID : Type :=
| Air
| Grass
| Dirt
| Stone
| Bedrock
| OakLog
| Leaves
| Ore (k : nat).

#[global] Instance BlockID_eq_dec : EqDecision BlockID.
Proof. solve_decision. Defined.

(** [b === BlockID.X] where [b] may be [undefined]. *)
Definition strictEq (b : option BlockID) (c : BlockID) : bool :=
  match b with
  | Some b' => bool_decide (b' = c)
  | None => false
  end.

Definition is_resource (b : BlockID) : bool :=
  match b with
  | Ore _ => true
  | _ => false
  end.

(** ** Configuration records *)

(** [WorldSize] and [WorldParams] come from [./WorldChunk]; their fields
    are the ones the worker reads. *)
Record WorldSize : Type := mkWorldSize { width : Z; height : Z }.

Record TerrainParams : Type :=
  mkTerrainParams { scale : float; t_offset : float; t_magnitude : float }.

Record LayerParams : Type :=
  mkLayerParams { offset : float; magnitude : float }.

Record Range : Type := mkRange { min : Z; max : Z }.

Record CanopyParams : Type := mkCanopyParams { density : Q; size : Range }.

Record TreeParams : Type :=
  mkTreeParams {
      frequency : float;
      trunkHeight : Range;
      canopy : CanopyParams }.

Record WorldParams : Type :=
  mkWorldParams {
      seed : Q;
      terrain : TerrainParams;
      surface : LayerParams;
      bedrock : LayerParams;
      trees : TreeParams }.

(** [THREE.Vector3]. *)
Record Vector3 : Type := mkVector3 { vx : float; vy : float; vz : float }.

(** One value of [oreConfig] ([./Block]). *)
Record OreConfig : Type :=
  mkOreConfig { id : BlockID; ore_scale : Vector3; scarcity : float }.

(** [Object.entries(oreConfig)]: the entries in insertion order. *)
Definition OreEntries : Type := list (string * OreConfig).

(** ** Numbers *)

(** The double nearest to an integer (exact below 2^53). *)
Definition ofZ (z : Z) : float :=
  SF2Prim (binary_normalize prec emax z 0 false).

(** The value of [Math.floor(f)]. *)
Inductive Floored : Type :=
| FlNaN
| FlNegInf
| FlPosInf
| FlInt (k : Z).

Definition jsFloor (f : float) : Floored :=
  match Prim2SF f with
  | S754_nan => FlNaN
  | S754_infinity s => if s then FlNegInf else FlPosInf
  | S754_zero _ => FlInt 0
  | S754_finite s m e => FlInt (Z.shiftl (if s then Z.neg m else Z.pos m) e)
  end.

(** [Math.max(0, Math.min(v, top))] for an integer [top]: NaN ([None])
    when [v] is NaN, an integer otherwise. *)
Definition clampIndex (v : Floored) (top : Z) : option Z :=
  match v with
  | FlNaN => None
  | FlNegInf => Some 0
  | FlPosInf => Some (Z.max 0 top)
  | FlInt k => Some (Z.max 0 (Z.min k top))
  end.

(** [a < b] on draws. *)
Definition Qltb (a b : Q) : bool :=
  (Qnum a * QDen b <? Qnum b * QDen a)%Z.

(** [Math.round]: the nearest integer, halves towards plus infinity. *)
Definition jsRound (q : Q) : Z := Qfloor (q + (1 # 2)).

(** The largest length that [new Array(n)] accepts. *)
Definition maxArrayLength : Z := 4294967295.

(** ** The random generator and the noise field *)

(** The classes [RNG] ([./RNG]) and [SimplexNoise] (three) are not part of
    the sources; the worker only calls them, so they are parameters of the
    embedding, deterministic black boxes as in section 1 of the
    specification.  [rng_new] is [new RNG(seed)]; [rng_random] is
    [rng.random()], which advances the generator; [simplex_new] is
    [new SimplexNoise(rng)], which draws from [rng] to build its
    permutation table; [noise] and [noise3d] are the two sampling methods. *)
Class Oracle : Type :=
  mkOracle {
      RngState : Type;
      rng_new : Q -> RngState;
      rng_random : RngState -> Q * RngState;
      Simplex : Type;
      simplex_new : RngState -> Simplex * RngState;
      noise : Simplex -> float -> float -> float;
      noise3d : Simplex -> float -> float -> float -> float }.

(** The contract of the generator: uniform draws lie in [0,1]. *)
Class OracleRange (O : Oracle) : Prop :=
  mkOracleRange {
      random_range : forall r, (0 <= fst (rng_random r) <= 1)%Q }.

(** ** Grids *)

Abbreviation Row := (gmap Z BlockID).
Abbreviation Plane := (gmap Z (gmap Z BlockID)).
Abbreviation Grid := (gmap Z (gmap Z (gmap Z BlockID))).

(** [g[x][y]] when it is defined. *)
Definition row (g : Grid) (x y : Z) : option Row :=
  match g !! x with
  | Some p => p !! y
  | None => None
  end.

(** [g[x][y][z]] when it is defined. *)
Definition cell (g : Grid) (x y z : Z) : option BlockID :=
  match row g x y with
  | Some r => r !! z
  | None => None
  end.

(** [g[x][y][z] = v] on a grid where [g[x][y]] is defined. *)
Definition setCell (g : Grid) (x y z : Z) (v : BlockID) : Grid :=
  match g !! x with
  | Some p =>
      match p !! y with
      | Some r => <[x := <[y := <[z := v]> r]> p]> g
      | None => g
      end
  | None => g
  end.

(** Every cell of the [width * height * width] volume holds a block. *)
Definition populated (sz : WorldSize) (g : Grid) : Prop :=
  forall x y z,
    0 <= x < width sz -> 0 <= y < height sz -> 0 <= z < width sz ->
    exists b, cell g x y z = Some b.

(** ** Ghost trace of cell assignments *)

Inductive Stage : Type :=
| ByAllocator
| ByResources
| ByTerrain
| ByTrunk (baseX baseY baseZ : Z)
| ByCanopy (baseX topY baseZ R : Z).

Record WriteRec : Type :=
  mkWriteRec {
      w_stage : Stage;
      w_x : Z;
      w_y : Z;
      w_z : Z;
      w_old : option BlockID;
      w_new : BlockID }.

Inductive JsError : Type := TypeError | RangeError.

Section Model.
Context {O : Oracle}.

Record State : Type :=
  mkState { grid : Grid; rng : RngState; trace : list WriteRec }.

Inductive Outcome (A : Type) : Type :=
| Ok (a : A) (s : State)
| Throw (e : JsError) (s : State).
Arguments Ok {A} a s.
Arguments Throw {A} e s.

Definition M (A : Type) : Type := State -> Outcome A.

Definition ret {A} (a : A) : M A := fun s => Ok a s.

Definition bind {A B} (m : M A) (k : A -> M B) : M B :=
  fun s =>
    match m s with
    | Ok a s' => k a s'
    | Throw e s' => Throw e s'
    end.

Definition throw {A} (e : JsError) : M A := fun s => Throw e s.

Definition final {A} (o : Outcome A) : State :=
  match o with
  | Ok _ s => s
  | Throw _ s => s
  end.

Definition returns {A} (o : Outcome A) : bool :=
  match o with
  | Ok _ _ => true
  | Throw _ _ => false
  end.
End Model.

Arguments Ok {O A} a s.
Arguments Throw {O A} e s.

Declare Scope js_scope.
Delimit Scope js_scope with js.
Notation "x <- m ;; k" := (bind m (fun x => k))
  (at level 100, m at next level, right associativity) : js_scope.
Notation "m ;;; k" := (bind m (fun _ => k))
  (at level 100, right associativity) : js_scope.

Section Program.
Context {O : Oracle}.
Local Open Scope js_scope.

(** *** Primitive operations *)

(** [rng.random()]. *)
Definition random : M Q :=
  fun s =>
    let '(u, r) := rng_random (rng s) in
    Ok u (mkState (grid s) r (trace s)).

(** [new SimplexNoise(rng)]. *)
Definition newSimplexNoise : M Simplex :=
  fun s =>
    let '(sx, r) := simplex_new (rng s) in
    Ok sx (mkState (grid s) r (trace s)).

(** The expression [input[x][y][z]]. *)
Definition readBlock (x y z : Z) : M (option BlockID) :=
  fun s =>
    match row (grid s) x y with
    | Some r => Ok (r !! z) s
    | None => Throw TypeError s
    end.

(** The statement [input[x][y][z] = v]. *)
Definition writeBlock (by_ : Stage) (x y z : Z) (v : BlockID) : M unit :=
  fun s =>
    match row (grid s) x y with
    | Some r =>
        Ok tt (mkState (setCell (grid s) x y z v) (rng s)
                 (trace s ++ [mkWriteRec by_ x y z (r !! z) v]))
    | None => Throw TypeError s
    end.

(** *** Loops *)

Fixpoint foldM (body : Z -> M unit) (l : list Z) : M unit :=
  match l with
  | [] => ret tt
  | k :: l' => body k ;;; foldM body l'
  end.

(** [for (let k = lo; k < hi; k++) body]. *)
Definition forZ (lo hi : Z) (body : Z -> M unit) : M unit :=
  foldM body (seqZ lo (hi - lo)).

(** [for (let k = hi; k >= lo; k--) body]. *)
Definition forDown (hi lo : Z) (body : Z -> M unit) : M unit :=
  foldM body (reverse (seqZ lo (hi - lo + 1))).

(** *** Grid allocator, lines 27-39 *)

(** [new Array(n)] throws a RangeError unless 0 <= n <= 2^32 - 1. *)
Definition newArray (n : Z) : M unit :=
  if (n <? 0) || (maxArrayLength <? n) then throw RangeError else ret tt.

Definition setGrid (g : Grid) : M unit :=
  fun s => Ok tt (mkState g (rng s) (trace s)).

Definition getGrid : M Grid := fun s => Ok (grid s) s.

(** [data[x] = new Array(height)]. *)
Definition allocPlane (x : Z) : M unit :=
  g <- getGrid ;; setGrid (<[x := ∅]> g).

(** [data[x][y] = new Array(width)]. *)
Definition allocRow (x y : Z) : M unit :=
  g <- getGrid ;;
  match g !! x with
  | Some p => setGrid (<[x := <[y := ∅]> p]> g)
  | None => throw TypeError
  end.

Definition initEmptyChunk (chunkSize : WorldSize) : M unit :=
  newArray (width chunkSize) ;;;
  setGrid ∅ ;;;
  forZ 0 (width chunkSize) (fun x =>
    newArray (height chunkSize) ;;;
    allocPlane x ;;;
    forZ 0 (height chunkSize) (fun y =>
      newArray (width chunkSize) ;;;
      allocRow x y ;;;
      forZ 0 (width chunkSize) (fun z =>
        writeBlock ByAllocator x y z Air))).

(** *** Resource stage, lines 44-71 *)

Definition resourceSample (simplex : Simplex) (chunkPos : Vector3)
    (config : OreConfig) (x y z : Z) : float :=
  noise3d simplex
    ((vx chunkPos + ofZ x) / vx (ore_scale config))%float
    ((vy chunkPos + ofZ y) / vy (ore_scale config))%float
    ((vz chunkPos + ofZ z) / vz (ore_scale config))%float.

(** [value > config.scarcity]. *)
Definition resourcePasses (simplex : Simplex) (chunkPos : Vector3)
    (config : OreConfig) (x y z : Z) : bool :=
  (scarcity config <? resourceSample simplex chunkPos config x y z)%float.

Definition stampResource (simplex : Simplex) (sz : WorldSize)
    (chunkPos : Vector3) (config : OreConfig) : M unit :=
  forZ 0 (width sz) (fun x =>
    forZ 0 (height sz) (fun y =>
      forZ 0 (width sz) (fun z =>
        if resourcePasses simplex chunkPos config x y z
        then writeBlock ByResources x y z (id config)
        else ret tt))).

Fixpoint stampResources (simplex : Simplex) (sz : WorldSize)
    (chunkPos : Vector3) (entries : OreEntries) : M unit :=
  match entries with
  | [] => ret tt
  | (_, config) :: rest =>
      stampResource simplex sz chunkPos config ;;;
      stampResources simplex sz chunkPos rest
  end.

Definition generateResources (oreConfig : OreEntries) (sz : WorldSize)
    (chunkPos : Vector3) : M unit :=
  simplex <- newSimplexNoise ;;
  stampResources simplex sz chunkPos oreConfig.

(** *** Terrain stage, lines 76-126 *)

(** Lines 86-92. *)
Definition scaledNoise (simplex : Simplex) (params : WorldParams)
    (chunkPos : Vector3) (x z : Z) : float :=
  let value :=
    noise simplex
      ((vx chunkPos + ofZ x) / scale (terrain params))%float
      ((vz chunkPos + ofZ z) / scale (terrain params))%float in
  (t_offset (terrain params) + t_magnitude (terrain params) * value)%float.

(** Lines 94-95: the surface height of a column, NaN ([None]) or an
    integer. *)
Definition columnHeight (simplex : Simplex) (sz : WorldSize)
    (params : WorldParams) (chunkPos : Vector3) (x z : Z) : option Z :=
  clampIndex
    (jsFloor (ofZ (height sz) * scaledNoise simplex params chunkPos x z)%float)
    (height sz - 1).

Definition numSurfaceBlocks (simplex : Simplex) (params : WorldParams)
    (x z : Z) : float :=
  (offset (surface params)
   + abs (noise simplex (ofZ x) (ofZ z) * magnitude (surface params)))%float.

Definition numBedrockBlocks (simplex : Simplex) (params : WorldParams)
    (x z : Z) : float :=
  (offset (bedrock params)
   + abs (noise simplex (ofZ x) (ofZ z) * magnitude (bedrock params)))%float.

(** The body of the loop on [y], lines 106-120, for a height that is a
    number. *)
Definition terrainCellAt (h : Z) (nSurface nBedrock : float) (x z y : Z)
    : M unit :=
  if y <? h then
    if (ofZ y <? nBedrock)%float then
      writeBlock ByTerrain x y z Bedrock
    else if (ofZ y <? ofZ h - nSurface)%float then
      b <- readBlock x y z ;;
      if strictEq b Air then writeBlock ByTerrain x y z Stone else ret tt
    else
      writeBlock ByTerrain x y z Dirt
  else if y =? h then
    writeBlock ByTerrain x y z Grass
  else if y >? h then
    writeBlock ByTerrain x y z Air
  else ret tt.

(** The body of the loop on [y], lines 106-120.  With a NaN height the
    tests [y < height], [y === height] and [y > height] are all false and
    the body does nothing. *)
Definition terrainCell (h : option Z) (nSurface nBedrock : float)
    (x z y : Z) : M unit :=
  match h with
  | Some h' => terrainCellAt h' nSurface nBedrock x z y
  | None => ret tt
  end.

Definition terrainColumns (simplex : Simplex) (sz : WorldSize)
    (params : WorldParams) (chunkPos : Vector3) : M unit :=
  forZ 0 (width sz) (fun x =>
    forZ 0 (width sz) (fun z =>
      let h := columnHeight simplex sz params chunkPos x z in
      let nSurface := numSurfaceBlocks simplex params x z in
      let nBedrock := numBedrockBlocks simplex params x z in
      forZ 0 (height sz) (terrainCell h nSurface nBedrock x z))).

Definition generateTerrain (sz : WorldSize) (params : WorldParams)
    (chunkPos : Vector3) : M unit :=
  simplex <- newSimplexNoise ;;
  terrainColumns simplex sz params chunkPos.

(** *** Tree stage, lines 131-197 *)

(** [Math.round(rng.random() * (max - min)) + min]. *)
Definition drawRange (r : Range) : M Z :=
  u <- random ;;
  ret (jsRound (u * inject_Z (max r - min r)) + min r).

(** The body of the innermost canopy loop, lines 175-188. *)
Definition canopyCell (params : WorldParams) (baseX topY baseZ R : Z)
    (x y z : Z) : M unit :=
  if x * x + y * y + z * z >? R * R then ret tt
  else
    b <- readBlock (baseX + x) (topY + y) (baseZ + z) ;;
    if negb (strictEq b Air) then ret tt
    else
      u <- random ;;
      if Qltb (density (canopy (trees params))) u
      then writeBlock (ByCanopy baseX topY baseZ R)
             (baseX + x) (topY + y) (baseZ + z) Leaves
      else ret tt.

(** Lines 172-191. *)
Definition generateCanopy (params : WorldParams) (baseX topY baseZ R : Z)
    : M unit :=
  forZ (- R) (R + 1) (fun x =>
    forZ (- R) (R + 1) (fun y =>
      forZ (- R) (R + 1) (fun z =>
        canopyCell params baseX topY baseZ R x y z))).

(** Lines 154-191: a tree on the Grass tile found at [(baseX, y, baseZ)]. *)
Definition plantTree (params : WorldParams) (baseX y baseZ : Z) : M unit :=
  let baseY := y + 1 in
  trunk <- drawRange (trunkHeight (trees params)) ;;
  let topY := baseY + trunk in
  forZ baseY topY (fun i =>
    writeBlock (ByTrunk baseX baseY baseZ) baseX i baseZ OakLog) ;;;
  R <- drawRange (size (canopy (trees params))) ;;
  generateCanopy params baseX topY baseZ R.

(** The body of the scan for Grass, lines 150-191. *)
Definition scanCell (params : WorldParams) (baseX baseZ y : Z) : M unit :=
  b <- readBlock baseX y baseZ ;;
  if negb (strictEq b Grass) then ret tt
  else plantTree params baseX y baseZ.

(** The sample [n] of lines 142-143. *)
Definition treeNoise (simplex : Simplex) (chunkPos : Vector3)
    (baseX baseZ : Z) : float :=
  (noise simplex (vx chunkPos + ofZ baseX) (vz chunkPos + ofZ baseZ)
   * 0.5 + 0.5)%float.

(** The test [n < 1 - params.trees.frequency] of line 144. *)
Definition treeSkipped (simplex : Simplex) (params : WorldParams)
    (chunkPos : Vector3) (baseX baseZ : Z) : bool :=
  (treeNoise simplex chunkPos baseX baseZ
   <? 1 - frequency (trees params))%float.

(** The body of the loop on [baseZ], lines 142-192. *)
Definition treeColumn (simplex : Simplex) (sz : WorldSize)
    (params : WorldParams) (chunkPos : Vector3) (baseX baseZ : Z) : M unit :=
  if treeSkipped simplex params chunkPos baseX baseZ
  then ret tt
  else forDown (height sz - 1) 0 (scanCell params baseX baseZ).

Definition treeColumns (simplex : Simplex) (sz : WorldSize)
    (params : WorldParams) (chunkPos : Vector3) : M unit :=
  let canopySize := max (size (canopy (trees params))) in
  forZ canopySize (width sz - canopySize) (fun baseX =>
    forZ canopySize (width sz - canopySize) (fun baseZ =>
      treeColumn simplex sz params chunkPos baseX baseZ)).

Definition generateTrees (sz : WorldSize) (params : WorldParams)
    (chunkPos : Vector3) : M unit :=
  simplex <- newSimplexNoise ;;
  treeColumns simplex sz params chunkPos.

(** *** Orchestrator, lines 11-25 *)

(** [const rng = new RNG(params.seed)]. *)
Definition newRNG (seed0 : Q) : M unit :=
  fun s => Ok tt (mkState (grid s) (rng_new seed0) (trace s)).

(** [generateChunk] runs in the heap that earlier calls have left: it
    allocates a new grid and a new generator, and the grid it returns is
    the grid component of the final state. *)
Definition generateChunk (oreConfig : OreEntries) (chunkSize : WorldSize)
    (params : WorldParams) (x z : float) : M unit :=
  let chunkPos := mkVector3 x 0 z in
  initEmptyChunk chunkSize ;;;
  newRNG (seed params) ;;;
  generateResources oreConfig chunkSize chunkPos ;;;
  generateTerrain chunkSize params chunkPos ;;;
  generateTrees chunkSize params chunkPos.
End Program.

(** ** Concrete black boxes *)

(** A generator whose every draw is [u] and a noise field given by two
    functions of the coordinates. *)
Definition fixedOracle (u : Q) (f2 : float -> float -> float)
    (f3 : float -> float -> float -> float) : Oracle :=
  {| RngState := unit;
     rng_new := fun _ => tt;
     rng_random := fun _ => (u, tt);
     Simplex := unit;
     simplex_new := fun _ => (tt, tt);
     noise := fun _ => f2;
     noise3d := fun _ => f3 |}.

Definition flatOracle (u : Q) (n : float) : Oracle :=
  fixedOracle u (fun _ _ => n) (fun _ _ _ => n).

(** * Vocabulary of the specification *)

Section Vocabulary.
Context {O : Oracle}.

(** [wp m Q E s]: run from [s], [m] returns a value and a state in [Q] or
    throws in a state in [E]. *)
Definition wp {A} (m : M A) (Q : A -> State -> Prop) (E : State -> Prop)
    (s : State) : Prop :=
  match m s with
  | Ok a s' => Q a s'
  | Throw _ s' => E s'
  end.

Definition inVolume (sz : WorldSize) (x y z : Z) : Prop :=
  0 <= x < width sz /\ 0 <= y < height sz /\ 0 <= z < width sz.

Definition rowsOk (sz : WorldSize) (g : Grid) : Prop :=
  forall x y, 0 <= x < width sz -> 0 <= y < height sz -> is_Some (row g x y).

(** [mapsCells D f s s']: from [s] to [s'] the cells in [D] went through
    [f], every other cell, the keys of the arrays and the generator are
    unchanged. *)
Record mapsCells (D : Z -> Z -> Z -> Prop)
    (f : Z -> Z -> Z -> option BlockID -> option BlockID)
    (s s' : State) : Prop :=
  mkMapsCells {
      mc_rng : rng s' = rng s;
      mc_plane : forall x, is_Some (grid s' !! x) <-> is_Some (grid s !! x);
      mc_row : forall x y,
        is_Some (row (grid s') x y) <-> is_Some (row (grid s) x y);
      mc_in : forall x y z,
        D x y z -> cell (grid s') x y z = f x y z (cell (grid s) x y z);
      mc_out : forall x y z,
        ~ D x y z -> cell (grid s') x y z = cell (grid s) x y z }.

(** The state after [input[x][y][z] = v]. *)
Definition written (s : State) (st : Stage) (x y z : Z) (v : BlockID)
    : State :=
  mkState (setCell (grid s) x y z v) (rng s)
    (trace s ++ [mkWriteRec st x y z (cell (grid s) x y z) v]).

Definition atCell (x y z x' y' z' : Z) : Prop := (x', y', z') = (x, y, z).

(** What one pass of the resource loop does to a cell. *)
Definition stampCell (simplex : Simplex) (chunkPos : Vector3)
    (config : OreConfig) (x y z : Z) (old : option BlockID)
    : option BlockID :=
  if resourcePasses simplex chunkPos config x y z then Some (id config)
  else old.

Definition stampCells (simplex : Simplex) (chunkPos : Vector3)
    (entries : OreEntries) (x y z : Z) (old : option BlockID)
    : option BlockID :=
  fold_left (fun acc e => stampCell simplex chunkPos (snd e) x y z acc)
    entries old.

(** In the words of the specification: the last resource, in configuration
    order, whose noise sample strictly exceeds its scarcity threshold. *)
Definition exceedsScarcity (simplex : Simplex) (chunkPos : Vector3)
    (x y z : Z) (config : OreConfig) : Prop :=
  (scarcity config <? resourceSample simplex chunkPos config x y z)%float
  = true.

#[local] Instance exceedsScarcity_dec simplex chunkPos x y z config :
  Decision (exceedsScarcity simplex chunkPos x y z config).
Proof. unfold exceedsScarcity. apply _. Defined.

Definition lastExceeding (simplex : Simplex) (chunkPos : Vector3)
    (entries : OreEntries) (x y z : Z) : option OreConfig :=
  last (filter (exceedsScarcity simplex chunkPos x y z) (snd <$> entries)).

(** The state in which a stage runs once its noise field is built. *)
Definition withSimplex (s : State) : State :=
  mkState (grid s) (snd (simplex_new (rng s))) (trace s).

(** What the loop body of lines 106-120 does to the cell it visits. *)
Definition terrainValueAt (h : Z) (nSurface nBedrock : float) (y : Z)
    (old : option BlockID) : option BlockID :=
  if y <? h then
    if (ofZ y <? nBedrock)%float then Some Bedrock
    else if (ofZ y <? ofZ h - nSurface)%float then
      if strictEq old Air then Some Stone else old
    else Some Dirt
  else if y =? h then Some Grass
  else Some Air.

Definition terrainValue (h : option Z) (nSurface nBedrock : float) (y : Z)
    (old : option BlockID) : option BlockID :=
  match h with
  | Some h' => terrainValueAt h' nSurface nBedrock y old
  | None => old
  end.

Definition terrainMap (simplex : Simplex) (sz : WorldSize)
    (params : WorldParams) (chunkPos : Vector3) (x y z : Z)
    (old : option BlockID) : option BlockID :=
  terrainValue (columnHeight simplex sz params chunkPos x z)
    (numSurfaceBlocks simplex params x z)
    (numBedrockBlocks simplex params x z) y old.

(** The shape claimed for a column: solid up to [h], Grass at [h], Air
    above. *)
Definition columnProfile (sz : WorldSize) (g : Grid) (x z h : Z) : Prop :=
  (forall y, 0 <= y <= h -> exists b, cell g x y z = Some b /\ b <> Air) /\
  (forall y, h < y < height sz -> cell g x y z = Some Air) /\
  cell g x h z = Some Grass.

(** From [s] to [s'] the trace grew by assignments that all satisfy [P]. *)
Definition emits (P : WriteRec -> Prop) (s s' : State) : Prop :=
  exists t, trace s' = trace s ++ t /\ Forall P t.

(** Every run of [m], returning or throwing, only adds assignments that
    satisfy [P]. *)
Definition traces {A} (P : WriteRec -> Prop) (m : M A) : Prop :=
  forall s, wp m (fun _ s' => emits P s s') (fun s' => emits P s s') s.

(** An assignment of Leaves comes from a canopy, lies within the radius of
    that canopy around its centre, and replaces Air. *)
Definition leafOk (w : WriteRec) : Prop :=
  w_new w = Leaves ->
  exists baseX topY baseZ R,
    w_stage w = ByCanopy baseX topY baseZ R /\
    (w_x w - baseX) * (w_x w - baseX) + (w_y w - topY) * (w_y w - topY)
      + (w_z w - baseZ) * (w_z w - baseZ) <= R * R /\
    w_old w = Some Air.

(** The horizontal indices of an assignment are inside the chunk. *)
Definition horizontalOk (sz : WorldSize) (w : WriteRec) : Prop :=
  0 <= w_x w < width sz /\ 0 <= w_z w < width sz.

(** The keys of the three levels of arrays are exactly the configured
    ranges, and every cell holds a block. *)
Definition shaped (sz : WorldSize) (g : Grid) : Prop :=
  (forall x, is_Some (g !! x) <-> 0 <= x < width sz) /\
  (forall x y, is_Some (row g x y) <-> 0 <= x < width sz /\ 0 <= y < height sz) /\
  (forall x y z, is_Some (cell g x y z) <-> inVolume sz x y z).

(** A grid under construction: planes [Dp], rows [Dr], and cells [Dc] all
    holding Air. *)
Definition building (Dp : Z -> Prop) (Dr : Z -> Z -> Prop)
    (Dc : Z -> Z -> Z -> Prop) (g : Grid) : Prop :=
  (forall x, is_Some (g !! x) <-> Dp x) /\
  (forall x y, is_Some (row g x y) <-> Dr x y) /\
  (forall x y z b, cell g x y z = Some b <-> b = Air /\ Dc x y z).

(** From [g] to [g'] no key was added or removed and no Grass appeared. *)
Definition grows (g g' : Grid) : Prop :=
  (forall x, is_Some (g' !! x) <-> is_Some (g !! x)) /\
  (forall x y, is_Some (row g' x y) <-> is_Some (row g x y)) /\
  (forall x y z, is_Some (cell g' x y z) <-> is_Some (cell g x y z)) /\
  (forall x y z, cell g' x y z = Some Grass -> cell g x y z = Some Grass).

(** A tree on the tile at height [y] stays inside the grid whatever trunk
    height and canopy radius are drawn: the lowest layer of the widest
    canopy on the shortest trunk is not below y = 0, and the highest layer
    of the widest canopy on the tallest trunk is not above the top. *)
Definition treeFitsAt (sz : WorldSize) (params : WorldParams) (y : Z)
    : Prop :=
  max (size (canopy (trees params)))
    <= y + 1 + min (trunkHeight (trees params)) /\
  y + 2 + max (trunkHeight (trees params))
    + max (size (canopy (trees params))) <= height sz.

(** The ranges of the tree stage are valid and a tree fits on every Grass
    tile of [g] in a candidate column that the frequency test of the noise
    field [simplex] does not skip. *)
Record treesFit (simplex : Simplex) (sz : WorldSize) (params : WorldParams)
    (chunkPos : Vector3) (g : Grid) : Prop :=
  mkTreesFit {
      tf_canopy :
        0 <= min (size (canopy (trees params)))
          <= max (size (canopy (trees params)));
      tf_trunk :
        0 <= min (trunkHeight (trees params))
          <= max (trunkHeight (trees params));
      tf_fit : forall x y z,
        max (size (canopy (trees params))) <= x
          < width sz - max (size (canopy (trees params))) ->
        max (size (canopy (trees params))) <= z
          < width sz - max (size (canopy (trees params))) ->
        treeSkipped simplex params chunkPos x z = false ->
        0 <= y < height sz ->
        cell g x y z = Some Grass ->
        treeFitsAt sz params y }.

(** The noise fields that the resource, terrain and tree stages of
    [generateChunk] build: the first, second and third one drawn from the
    generator. *)
Definition resourceNoise (params : WorldParams) : Simplex :=
  fst (simplex_new (rng_new (seed params))).

Definition terrainNoise (params : WorldParams) : Simplex :=
  fst (simplex_new (snd (simplex_new (rng_new (seed params))))).

Definition treeNoiseField (params : WorldParams) : Simplex :=
  fst (simplex_new
         (snd (simplex_new (snd (simplex_new (rng_new (seed params))))))).

(** What the first two stages of [generateChunk] leave in a cell of the
    volume: the last passing resource stamped over Air. *)
Definition stampedOverAir (params : WorldParams) (chunkPos : Vector3)
    (entries : OreEntries) (x y z : Z) : option BlockID :=
  stampCells (resourceNoise params) chunkPos entries x y z (Some Air).

(** What the first three stages of [generateChunk] leave in a cell of the
    volume. *)
Definition groundCell (entries : OreEntries) (sz : WorldSize)
    (params : WorldParams) (chunkPos : Vector3) (x y z : Z)
    : option BlockID :=
  terrainMap (terrainNoise params) sz params chunkPos x y z
    (stampedOverAir params chunkPos entries x y z).

(** The sizes that [new Array] accepts. *)
Definition arraySize (n : Z) : Prop := 0 <= n <= maxArrayLength.

(** Two heaps hold the same grid and, when [withRng] is set, the same
    generator. *)
Definition agree (withRng : bool) (s1 s2 : State) : Prop :=
  grid s1 = grid s2 /\ (withRng = true -> rng s1 = rng s2).

(** Two runs end the same way: both throw the same error, or both return
    the same value, in heaps related by [R]. *)
Definition sameEnd {A} (R : State -> State -> Prop) (o1 o2 : Outcome A)
    : Prop :=
  match o1, o2 with
  | Ok a1 t1, Ok a2 t2 => a1 = a2 /\ R t1 t2
  | Throw e1 _, Throw e2 _ => e1 = e2
  | _, _ => False
  end.

(** [m] does not depend on the ghost trace (nor, when [withRng] is not set,
    on the generator): from heaps that agree it ends the same way in heaps
    that agree. *)
Definition respects {A} (withRng : bool) (m : M A) : Prop :=
  forall s1 s2, agree withRng s1 s2 ->
    sameEnd (agree withRng) (m s1) (m s2).

(** A block that the allocator or the resource stage can leave in a cell. *)
Definition stamped (entries : OreEntries) (b : BlockID) : Prop :=
  b = Air \/ exists e, e ∈ entries /\ id (snd e) = b.

End Vocabulary.

(** * Inputs and claims of the worked examples *)

(** Draws of one half and a noise field that is zero everywhere. *)
Definition exOracle : Oracle := flatOracle (1 # 2) 0.


(** Draws of one half and a noise field that is everywhere the largest
    double below one. *)
Definition nearOneOracle : Oracle := flatOracle (1 # 2) 0x1.fffffffffffffp-1.


(** Draws of one half and a noise field that is NaN everywhere. *)
Definition nanOracle : Oracle := flatOracle (1 # 2) nan.

(** Draws of one half and a two-dimensional noise field that rises with
    its first coordinate. *)
Definition slopeOracle : Oracle :=
  fixedOracle (1 # 2) (fun a _ => a) (fun _ _ _ => 0%float).

(** A generator that counts: its state is the number of draws and noise
    fields taken since the seed, a draw is 0 or 1 by the parity of the
    count, and a noise field is constant, 0 or one half by the parity of
    the count at which it was built. *)
Definition countingOracle : Oracle :=
  {| RngState := Z;
     rng_new := fun q => Qfloor q;
     rng_random := fun k => (inject_Z (k mod 2), k + 1);
     Simplex := Z;
     simplex_new := fun k => (k, k + 1);
     noise := fun k _ _ => if Z.even k then 0%float else 0.5%float;
     noise3d := fun k _ _ _ => if Z.even k then 0%float else 0.5%float |}.

Definition startState {O : Oracle} (seed0 : Q) : State :=
  mkState ∅ (rng_new seed0) [].

(** The state left by the allocator. *)
Definition emptyChunk {O : Oracle} (sz : WorldSize) : State :=
  final (initEmptyChunk sz (startState 0)).

Definition exOrigin : Vector3 := mkVector3 0 0 0.

Definition exEntries : OreEntries :=
  [("coal"%string, mkOreConfig (Ore 0) (mkVector3 20 20 20) (-0.5));
   ("iron"%string, mkOreConfig (Ore 1) (mkVector3 40 40 40) 0.5)].

(** A column of height 8 with Grass at y = 0 and at y = 3. *)
Definition twoGrass : State (O := exOracle) :=
  mkState
    (setCell
       (setCell (grid (emptyChunk (O := exOracle) (mkWorldSize 1 8)))
          0 0 0 Grass)
       0 3 0 Grass)
    (rng_new 0) [].

(** A heap that an earlier call has used: a grid with a Grass tile, a
    generator 41 draws after its seed, one recorded assignment. *)
Definition usedHeap : State (O := countingOracle) :=
  mkState (O := countingOracle)
    (setCell (grid (emptyChunk (O := countingOracle) (mkWorldSize 1 8)))
       0 0 0 Grass)
    41
    [mkWriteRec ByTerrain 0 0 0 (Some Air) Grass].

Definition thrown {O : Oracle} {A} (o : Outcome A) : option JsError :=
  match o with
  | Ok _ _ => None
  | Throw e _ => Some e
  end.

(** A finite positive number. *)
Definition finitePositive (f : float) : Prop :=
  (0 <? f)%float = true /\ is_finite f = true.

(** C1 as worded: every valid configuration makes [generateChunk] return a
    fully populated grid. *)
Definition always_returns_claim : Prop :=
  forall (O : Oracle), OracleRange O ->
  forall (entries : OreEntries) (sz : WorldSize) (params : WorldParams)
         (x z : float) (s : State),
    0 < width sz -> 0 < height sz ->
    0 <= min (size (canopy (trees params)))
      <= max (size (canopy (trees params))) ->
    0 <= min (trunkHeight (trees params))
      <= max (trunkHeight (trees params)) ->
    finitePositive (scale (terrain params)) ->
    Forall (fun e => finitePositive (vx (ore_scale (snd e)))
                     /\ finitePositive (vy (ore_scale (snd e)))
                     /\ finitePositive (vz (ore_scale (snd e)))) entries ->
    exists s',
      generateChunk entries sz params x z s = Ok tt s' /\
      populated sz (grid s').

(** C3 as worded: below the bedrock thickness every cell is Bedrock. *)
Definition bedrock_floor_claim : Prop :=
  forall (O : Oracle) (sz : WorldSize) (params : WorldParams)
         (chunkPos : Vector3) (s : State) (x y z : Z),
    populated sz (grid s) -> inVolume sz x y z ->
    (ofZ y
       <? numBedrockBlocks (fst (simplex_new (rng s))) params x z)%float
    = true ->
    cell (grid (final (generateTerrain sz params chunkPos s))) x y z
    = Some Bedrock.


Definition exParams (terrainOffset bedrockOffset freq : float)
    (trunk canopySize : Range) (dens : Q) : WorldParams :=
  mkWorldParams 0
    (mkTerrainParams 30 terrainOffset 0)
    (mkLayerParams 1 0)
    (mkLayerParams bedrockOffset 0)
    (mkTreeParams freq trunk (mkCanopyParams dens canopySize)).

(** Width 4, height 8, a flat terrain whose surface is at y = 6, trunks of
    height 2 and canopies of radius 1 at every candidate column. *)
Definition tallTreeParams : WorldParams :=
  exParams 0.75 1 1 (mkRange 2 2) (mkRange 1 1) (1 # 2).

(** A surface at y = 0 under a bedrock thickness of 1. *)
Definition lowSurfaceParams : WorldParams :=
  exParams 0 1 0 (mkRange 2 2) (mkRange 1 1) (1 # 2).

(** Width 5, height 16, the surface at y = 0, trunks of height 0 and
    canopies of radius 2: the lowest canopy layer is at y = -1. *)
Definition deepCanopyParams : WorldParams :=
  exParams 0 1 1 (mkRange 0 0) (mkRange 2 2) (1 # 2).

(** Frequency 0 on a column of height 8 with the surface at y = 2. *)
Definition noTreeParams : WorldParams :=
  exParams 0.25 1 0 (mkRange 1 1) (mkRange 0 0) 0.

Definition oneBlockTrees : WorldParams :=
  exParams 0 1 1 (mkRange 1 1) (mkRange 0 0) 0.

Definition midSize : WorldSize := mkWorldSize 2 4.

(** A flat terrain with its surface at y = 2 of 4. *)
Definition midParams : WorldParams :=
  exParams 0.5 1 1 (mkRange 1 1) (mkRange 0 0) 0.

(** Width 2, height 8 and a flat terrain with its surface at y = 4: under
    a bedrock and a surface layer of thickness 1 the stone band of every
    column is y = 1 and y = 2. *)
Definition bandSize : WorldSize := mkWorldSize 2 8.

(** Width 3, height 8, surface at y = 2, trunks of height 1 to 2 and
    canopies of radius 1: the tallest tree ends at y = 6. *)
Definition fittingParams : WorldParams :=
  exParams 0.25 1 1 (mkRange 1 2) (mkRange 1 1) 0.

(** A terrain scale of 0: every terrain sample is taken at 0/0. *)
Definition zeroScaleParams : WorldParams :=
  mkWorldParams 0
    (mkTerrainParams 0 0.5 1)
    (mkLayerParams 1 0)
    (mkLayerParams 1 0)
    (mkTreeParams 0 (mkRange 1 1) (mkCanopyParams 0 (mkRange 0 0))).

(** A terrain with relief: the surface height follows the noise field. *)
Definition reliefParams : WorldParams :=
  mkWorldParams 0
    (mkTerrainParams 32 0.25 0.5)
    (mkLayerParams 1 0)
    (mkLayerParams 1 0)
    (mkTreeParams 0 (mkRange 1 1) (mkCanopyParams 0 (mkRange 0 0))).

(** The 2 x 8 x 2 grid after the resource stage: coal in every cell. *)
Definition coalChunk : State (O := exOracle) :=
  final (generateResources exEntries bandSize exOrigin (emptyChunk bandSize)).



(** * Vocabulary of the further properties *)

Section MoreVocabulary.
Context {O : Oracle}.

(** When [initEmptyChunk] rejects its sizes: [new Array(width)] with a
    width outside [0, 2^32 - 1], or [new Array(height)] with such a height,
    which is only reached when there is a first plane to allocate. *)
Definition badSizes (sz : WorldSize) : Prop :=
  ~ arraySize (width sz) \/ (0 < width sz /\ ~ arraySize (height sz)).

(** An assignment of the resource stage: inside the volume, of the
    identifier of a configured resource whose sample passes there. *)
Definition resourceWrite (simplex : Simplex) (sz : WorldSize)
    (chunkPos : Vector3) (entries : OreEntries) (w : WriteRec) : Prop :=
  w_stage w = ByResources /\
  inVolume sz (w_x w) (w_y w) (w_z w) /\
  exists e,
    e ∈ entries /\ w_new w = id (snd e) /\
    resourcePasses simplex chunkPos (snd e) (w_x w) (w_y w) (w_z w) = true.

(** An assignment of a trunk: OakLog, in the base column, at or above the
    trunk base. *)
Definition trunkWrite (w : WriteRec) : Prop :=
  exists baseX baseY baseZ,
    w_stage w = ByTrunk baseX baseY baseZ /\ w_new w = OakLog /\
    w_x w = baseX /\ w_z w = baseZ /\ baseY <= w_y w.

(** An assignment of the tree stage: a trunk's, or Leaves by a canopy. *)
Definition woodWrite (w : WriteRec) : Prop :=
  trunkWrite w \/
  exists baseX topY baseZ R,
    w_stage w = ByCanopy baseX topY baseZ R /\ w_new w = Leaves.

(** The cell is in the stone band of its column: the height of the column
    is a number [h] and the code's three tests [y < height],
    [y < numBedrockBlocks] and [y < height - numSurfaceBlocks] give true,
    false and true. *)
Definition inStoneBand (simplex : Simplex) (sz : WorldSize)
    (params : WorldParams) (chunkPos : Vector3) (x y z : Z) : Prop :=
  exists h,
    columnHeight simplex sz params chunkPos x z = Some h /\
    y < h /\
    (ofZ y <? numBedrockBlocks simplex params x z)%float = false /\
    (ofZ y <? ofZ h - numSurfaceBlocks simplex params x z)%float = true.


(** The cell is inside the volume, at or below the surface of its column
    in the chunk that [generateChunk] builds; the surface height of the
    column is a number. *)
Definition atOrBelowSurface (sz : WorldSize) (params : WorldParams)
    (chunkPos : Vector3) (x y z : Z) : Prop :=
  inVolume sz x y z /\
  exists h,
    columnHeight (terrainNoise params) sz params chunkPos x z = Some h /\
    y <= h.

(** From [g0] to [g] the ground is untouched and no Grass has appeared
    elsewhere. *)
Definition keepsGround (sz : WorldSize) (params : WorldParams)
    (chunkPos : Vector3) (g0 g : Grid) : Prop :=
  (forall x y z, atOrBelowSurface sz params chunkPos x y z ->
     cell g x y z = cell g0 x y z) /\
  (forall x y z, inVolume sz x y z ->
     ~ atOrBelowSurface sz params chunkPos x y z ->
     cell g x y z <> Some Grass).

(** What the stone band of the returned chunk holds: the last passing
    resource, or Stone where none passes or where the resource is Air. *)
Definition bandBlock (params : WorldParams) (chunkPos : Vector3)
    (entries : OreEntries) (x y z : Z) : BlockID :=
  match lastExceeding (resourceNoise params) chunkPos entries x y z with
  | Some config => if decide (id config = Air) then Stone else id config
  | None => Stone
  end.

End MoreVocabulary.

(** Canopies that are never filled: density 1. *)
Definition bareTrees : WorldParams :=
  exParams 0 1 1 (mkRange 1 1) (mkRange 0 0) 1.

(** A column of height 2 with Grass in its top layer. *)
Definition topGrass : State (O := exOracle) :=
  mkState
    (setCell (grid (emptyChunk (O := exOracle) (mkWorldSize 1 2))) 0 1 0 Grass)
    (rng_new 0) [].

(** * Verification *)

(** ** Numbers *)

Lemma Qltb_ge (a b : Q) : Qltb a b = false <-> (b <= a)%Q.
Proof. unfold Qltb, Qle. rewrite Z.ltb_ge. reflexivity. Qed.



Lemma Qfloor_lt_succ (q : Q) (n : Z) : (q < inject_Z (n + 1))%Q -> Qfloor q <= n.
Proof.
  intros Hq.
  assert (Hlt : (inject_Z (Qfloor q) < inject_Z (n + 1))%Q).
  { eapply Qle_lt_trans; [apply Qfloor_le | exact Hq]. }
  rewrite <- Zlt_Qlt in Hlt. lia.
Qed.

Lemma jsRound_bounds (q : Q) (n : Z) :
  (0 <= q)%Q -> (q <= inject_Z n)%Q -> 0 <= jsRound q <= n.
Proof.
  intros H0 Hn. unfold jsRound. split.
  - change 0 with (Qfloor 0). apply Qfloor_resp_le.
    apply Qle_trans with (y := q); [exact H0 |].
    rewrite <- (Qplus_0_r q) at 1. apply Qplus_le_r. discriminate.
  - apply Qfloor_lt_succ. rewrite inject_Z_plus.
    apply Qle_lt_trans with (y := (inject_Z n + (1 # 2))%Q).
    + apply Qplus_le_l. exact Hn.
    + apply Qplus_lt_r. reflexivity.
Qed.

(** ** Grids *)

Lemma row_setCell (g : Grid) (x y z : Z) (v : BlockID) (x' y' : Z) :
  is_Some (row (setCell g x y z v) x' y') <-> is_Some (row g x' y').
Proof.
  unfold setCell, row.
  destruct (g !! x) as [p|] eqn:Hp; [| reflexivity].
  destruct (p !! y) as [r|] eqn:Hr; [| reflexivity].
  destruct (decide (x' = x)) as [->|Hx].
  - rewrite lookup_insert_eq, Hp.
    destruct (decide (y' = y)) as [->|Hy].
    + rewrite lookup_insert_eq, Hr. split; eauto.
    + rewrite lookup_insert_ne by congruence. reflexivity.
  - rewrite lookup_insert_ne by congruence. reflexivity.
Qed.

Lemma plane_setCell (g : Grid) (x y z : Z) (v : BlockID) (x' : Z) :
  is_Some (setCell g x y z v !! x') <-> is_Some (g !! x').
Proof.
  unfold setCell.
  destruct (g !! x) as [p|] eqn:Hp; [| reflexivity].
  destruct (p !! y) as [r|] eqn:Hr; [| reflexivity].
  destruct (decide (x' = x)) as [->|Hx].
  - rewrite lookup_insert_eq, Hp. split; eauto.
  - rewrite lookup_insert_ne by congruence. reflexivity.
Qed.

Lemma cell_setCell_eq (g : Grid) (x y z : Z) (v : BlockID) :
  is_Some (row g x y) -> cell (setCell g x y z v) x y z = Some v.
Proof.
  unfold cell, setCell, row. intros [r Hr].
  destruct (g !! x) as [p|] eqn:Hp; [| discriminate].
  rewrite Hr. rewrite lookup_insert_eq, lookup_insert_eq.
  apply lookup_insert_eq.
Qed.

Lemma cell_setCell_ne (g : Grid) (x y z : Z) (v : BlockID) (x' y' z' : Z) :
  (x', y', z') <> (x, y, z) ->
  cell (setCell g x y z v) x' y' z' = cell g x' y' z'.
Proof.
  unfold cell, setCell, row. intros Hne.
  destruct (g !! x) as [p|] eqn:Hp; [| reflexivity].
  destruct (p !! y) as [r|] eqn:Hr; [| reflexivity].
  destruct (decide (x' = x)) as [->|Hx].
  - rewrite lookup_insert_eq, Hp.
    destruct (decide (y' = y)) as [->|Hy].
    + rewrite lookup_insert_eq, Hr.
      rewrite lookup_insert_ne by congruence. reflexivity.
    + rewrite lookup_insert_ne by congruence. reflexivity.
  - rewrite lookup_insert_ne by congruence. reflexivity.
Qed.

Lemma cell_row (g : Grid) (x y z : Z) :
  is_Some (cell g x y z) -> is_Some (row g x y).
Proof. unfold cell. destruct (row g x y); [eauto | intros [? ?]; discriminate]. Qed.

Lemma populated_row (sz : WorldSize) (g : Grid) (x y : Z) :
  populated sz g -> 0 <= x < width sz -> 0 <= y < height sz ->
  is_Some (row g x y).
Proof.
  intros Hp Hx Hy. apply (cell_row g x y 0).
  destruct (Hp x y 0) as [b Hb]; [lia .. | eauto].
Qed.

(** ** Weakest preconditions *)

Section Logic.
Context {O : Oracle}.

Lemma wp_ret {A} (a : A) Q E s : Q a s -> wp (ret a) Q E s.
Proof. intros H. exact H. Qed.

Lemma wp_throw {A} e (Q : A -> State -> Prop) (E : State -> Prop) s : E s -> wp (throw e) Q E s.
Proof. intros H. exact H. Qed.

Lemma wp_bind {A B} (m : M A) (k : A -> M B) Q E s :
  wp m (fun a s' => wp (k a) Q E s') E s -> wp (bind m k) Q E s.
Proof. unfold wp, bind. destruct (m s); auto. Qed.

Lemma wp_mono {A} (m : M A) (Q Q' : A -> State -> Prop) (E E' : State -> Prop) s :
  wp m Q E s ->
  (forall a s', Q a s' -> Q' a s') -> (forall s', E s' -> E' s') ->
  wp m Q' E' s.
Proof. unfold wp. destruct (m s); auto. Qed.

Lemma wp_ok {A} (m : M A) (Q : A -> State -> Prop) s :
  wp m Q (fun _ => False) s <-> exists a s', m s = Ok a s' /\ Q a s'.
Proof.
  unfold wp. destruct (m s) as [a s'|e s'].
  - split; [eauto | intros (? & ? & [= <- <-] & ?); assumption].
  - split; [tauto | intros (? & ? & ? & _); discriminate].
Qed.

Lemma wp_foldM (I : list Z -> State -> Prop) (E : State -> Prop)
    (body : Z -> M unit) (l : list Z) s :
  I [] s ->
  (forall pre k post s1, l = pre ++ k :: post -> I pre s1 ->
     wp (body k) (fun _ s2 => I (pre ++ [k]) s2) E s1) ->
  wp (foldM body l) (fun _ s' => I l s') E s.
Proof.
  revert I s. induction l as [|k l IH]; intros I s H0 Hstep.
  - exact H0.
  - simpl. apply wp_bind.
    eapply wp_mono; [apply (Hstep [] k l s eq_refl H0) | | auto].
    intros [] s1 H1. simpl in H1.
    apply (IH (fun pre => I (k :: pre))); [exact H1 |].
    intros pre k' post s2 -> H2.
    apply (Hstep (k :: pre) k' post s2 eq_refl H2).
Qed.

Lemma wp_forZ (I : Z -> State -> Prop) (E : State -> Prop)
    (lo hi : Z) (body : Z -> M unit) s :
  I lo s ->
  (forall k s1, lo <= k < hi -> I k s1 ->
     wp (body k) (fun _ s2 => I (k + 1) s2) E s1) ->
  wp (forZ lo hi body) (fun _ s' => I (Z.max lo hi) s') E s.
Proof.
  intros H0 Hstep. unfold forZ.
  eapply wp_mono;
    [apply (wp_foldM (fun pre => I (lo + Z.of_nat (length pre)))) | | intros ? HE; exact HE].
  - replace (lo + Z.of_nat (length (@nil Z))) with lo by (simpl; lia). exact H0.
  - intros pre k post s1 Hl H1.
    assert (Hk : seqZ lo (hi - lo) !! length pre = Some k).
    { rewrite Hl. rewrite lookup_app_r by lia.
      replace (length pre - length pre)%nat with 0%nat by lia. reflexivity. }
    apply lookup_seqZ in Hk as [Hk Hlt]. subst k.
    rewrite length_app. simpl.
    eapply wp_mono; [apply Hstep; [lia | exact H1] | | intros ? HE; exact HE].
    intros [] s2 H2. simpl.
    replace (lo + Z.of_nat (length pre + 1)) with (lo + Z.of_nat (length pre) + 1) by lia.
    exact H2.
  - intros [] s' H. simpl in H. rewrite length_seqZ in H.
    replace (lo + Z.of_nat (Z.to_nat (hi - lo))) with (Z.max lo hi) in H by lia.
    exact H.
Qed.

(** A loop whose every iteration keeps [I]. *)
Lemma wp_forZ_inv (I : State -> Prop) (E : State -> Prop)
    (lo hi : Z) (body : Z -> M unit) s :
  I s ->
  (forall k s1, lo <= k < hi -> I s1 -> wp (body k) (fun _ s2 => I s2) E s1) ->
  wp (forZ lo hi body) (fun _ s' => I s') E s.
Proof.
  intros H0 Hstep.
  eapply wp_mono; [apply (wp_forZ (fun _ => I)); eauto | intros [] ? HQ; exact HQ | intros ? HE; exact HE].
Qed.

Lemma wp_forDown_inv (I : State -> Prop) (E : State -> Prop)
    (hi lo : Z) (body : Z -> M unit) s :
  I s ->
  (forall k s1, lo <= k <= hi -> I s1 -> wp (body k) (fun _ s2 => I s2) E s1) ->
  wp (forDown hi lo body) (fun _ s' => I s') E s.
Proof.
  intros H0 Hstep. unfold forDown.
  eapply wp_mono; [apply (wp_foldM (fun _ => I)) | intros [] ? HQ; exact HQ | intros ? HE; exact HE].
  - exact H0.
  - intros pre k post s1 Hl H1. apply Hstep; [| exact H1].
    assert (Hin : k ∈ reverse (seqZ lo (hi - lo + 1))).
    { rewrite Hl. apply elem_of_app. right. apply list_elem_of_here. }
    rewrite elem_of_reverse, elem_of_seqZ in Hin. lia.
Qed.

(** *** Primitives *)

Lemma wp_random Q E s :
  (forall u r, rng_random (rng s) = (u, r) ->
     Q u (mkState (grid s) r (trace s))) ->
  wp random Q E s.
Proof.
  intros H. unfold wp, random.
  destruct (rng_random (rng s)) as [u r] eqn:Hr. apply H. reflexivity.
Qed.

Lemma wp_newSimplexNoise Q E s :
  Q (fst (simplex_new (rng s)))
    (mkState (grid s) (snd (simplex_new (rng s))) (trace s)) ->
  wp newSimplexNoise Q E s.
Proof.
  intros H. unfold wp, newSimplexNoise.
  destruct (simplex_new (rng s)) as [sx r]. exact H.
Qed.

Lemma wp_readBlock x y z Q E s :
  (is_Some (row (grid s) x y) -> Q (cell (grid s) x y z) s) ->
  (row (grid s) x y = None -> E s) ->
  wp (readBlock x y z) Q E s.
Proof.
  intros HQ HE. unfold wp, readBlock, cell in *.
  destruct (row (grid s) x y) as [r|]; [apply HQ; eauto | apply HE; reflexivity].
Qed.

Lemma wp_writeBlock st x y z v Q E s :
  (is_Some (row (grid s) x y) ->
   Q tt (mkState (setCell (grid s) x y z v) (rng s)
           (trace s ++ [mkWriteRec st x y z (cell (grid s) x y z) v]))) ->
  (row (grid s) x y = None -> E s) ->
  wp (writeBlock st x y z v) Q E s.
Proof.
  intros HQ HE. unfold wp, writeBlock, cell in *.
  destruct (row (grid s) x y) as [r|]; [apply HQ; eauto | apply HE; reflexivity].
Qed.

Lemma wp_drawRange `{!OracleRange O} (r : Range) (Q : Z -> State -> Prop) E s :
  min r <= max r ->
  (forall n rs, min r <= n <= max r ->
     Q n (mkState (grid s) rs (trace s))) ->
  wp (drawRange r) Q E s.
Proof.
  intros Hr H. unfold drawRange. apply wp_bind, wp_random.
  intros u rs Hu. apply wp_ret. apply H.
  pose proof (random_range (rng s)) as [H0 H1]. rewrite Hu in H0, H1.
  simpl in H0, H1.
  assert (0 <= jsRound (u * inject_Z (max r - min r)) <= max r - min r);
    [| lia].
  apply jsRound_bounds.
  - apply Qmult_le_0_compat; [exact H0 |].
    change 0%Q with (inject_Z 0). rewrite <- Zle_Qle. lia.
  - rewrite <- (Qmult_1_l (inject_Z (max r - min r))) at 2.
    apply Qmult_le_compat_r; [exact H1 |].
    change 0%Q with (inject_Z 0). rewrite <- Zle_Qle. lia.
Qed.

End Logic.

(** ** Loops that visit every cell once *)

Section Sweep.
Context {O : Oracle}.

Lemma mapsCells_refl f s : mapsCells (fun _ _ _ => False) f s s.
Proof. split; try reflexivity; intros; tauto. Qed.

Lemma mapsCells_ext D D' f s s' :
  (forall x y z, D x y z <-> D' x y z) ->
  mapsCells D f s s' -> mapsCells D' f s s'.
Proof.
  intros HD [H1 H2 H3 H4 H5]. split; auto.
  - intros x y z Hd. apply H4, HD, Hd.
  - intros x y z Hd. apply H5. rewrite HD. exact Hd.
Qed.

Lemma mapsCells_union D1 D2 f s s1 s2 :
  (forall x y z, D1 x y z -> D2 x y z -> False) ->
  mapsCells D1 f s s1 -> mapsCells D2 f s1 s2 ->
  mapsCells (fun x y z => D1 x y z \/ D2 x y z) f s s2.
Proof.
  intros Hdis [A1 A2 A3 A4 A5] [B1 B2 B3 B4 B5]. split.
  - congruence.
  - intros x. rewrite B2. apply A2.
  - intros x y. rewrite B3. apply A3.
  - intros x y z [Hd|Hd].
    + rewrite B5 by eauto. apply A4, Hd.
    + rewrite B4 by exact Hd. rewrite A5 by eauto. reflexivity.
  - intros x y z Hd. rewrite B5 by tauto. apply A5. tauto.
Qed.

Lemma mapsCells_seq D f g s s1 s2 :
  mapsCells D f s s1 -> mapsCells D g s1 s2 ->
  mapsCells D (fun x y z o => g x y z (f x y z o)) s s2.
Proof.
  intros [A1 A2 A3 A4 A5] [B1 B2 B3 B4 B5]. split.
  - congruence.
  - intros x. rewrite B2. apply A2.
  - intros x y. rewrite B3. apply A3.
  - intros x y z Hd. rewrite B4 by exact Hd. rewrite A4 by exact Hd.
    reflexivity.
  - intros x y z Hd. rewrite B5 by exact Hd. apply A5, Hd.
Qed.

Lemma mapsCells_rowsOk sz D f s s' :
  mapsCells D f s s' -> rowsOk sz (grid s) -> rowsOk sz (grid s').
Proof. intros Hm Hr x y Hx Hy. apply (mc_row _ _ _ _ Hm). auto. Qed.

Lemma populated_rowsOk sz g : populated sz g -> rowsOk sz g.
Proof. intros Hp x y Hx Hy. eapply populated_row; eauto. Qed.

Lemma mapsCells_written s st x y z v f :
  is_Some (row (grid s) x y) ->
  f x y z (cell (grid s) x y z) = Some v ->
  mapsCells (fun x' y' z' => (x', y', z') = (x, y, z)) f s
    (written s st x y z v).
Proof.
  intros Hr Hf. split; simpl.
  - reflexivity.
  - intros x'. apply plane_setCell.
  - intros x' y'. apply row_setCell.
  - intros x' y' z' [= -> -> ->]. rewrite cell_setCell_eq by exact Hr.
    symmetry. exact Hf.
  - intros x' y' z' Hne. apply cell_setCell_ne. exact Hne.
Qed.

Lemma mapsCells_skip s x y z f :
  f x y z (cell (grid s) x y z) = cell (grid s) x y z ->
  mapsCells (fun x' y' z' => (x', y', z') = (x, y, z)) f s s.
Proof.
  intros Hf. split; try reflexivity.
  intros x' y' z' [= -> -> ->]. symmetry. exact Hf.
Qed.

(** A loop whose iteration [k] maps the cells of [D k], the sets [D k]
    being pairwise disjoint, maps the cells of their union. *)
Lemma wp_forZ_maps sz (D : Z -> Z -> Z -> Z -> Prop) f lo hi body s :
  rowsOk sz (grid s) ->
  (forall j k x y z, D j x y z -> D k x y z -> j = k) ->
  (forall k s1, lo <= k < hi -> rowsOk sz (grid s1) ->
     wp (body k) (fun _ s2 => mapsCells (D k) f s1 s2) (fun _ => False) s1) ->
  wp (forZ lo hi body)
    (fun _ s' =>
       mapsCells (fun x y z => exists k, lo <= k < hi /\ D k x y z) f s s')
    (fun _ => False) s.
Proof.
  intros Hr Hdis Hstep.
  eapply wp_mono;
    [apply (wp_forZ (fun k s' =>
       mapsCells (fun x y z => exists j, (lo <= j < k) /\ D j x y z) f s s'))
    | | intros ? HE; exact HE].
  - eapply mapsCells_ext; [| apply mapsCells_refl].
    intros x y z. split; [tauto | intros (j & Hj & _); lia].
  - intros k s1 Hk H1.
    eapply wp_mono;
      [apply Hstep; [exact Hk | eapply mapsCells_rowsOk; eauto]
      | | intros ? HE; exact HE].
    intros [] s2 H2.
    eapply mapsCells_ext; [| eapply mapsCells_union; [| exact H1 | exact H2]].
    + intros x y z. split.
      * intros [(j & Hj & Hd)|Hd]; [exists j | exists k]; split; auto; lia.
      * intros (j & Hj & Hd). destruct (decide (j = k)) as [->|Hne];
          [right; exact Hd | left; exists j; split; [lia | exact Hd]].
    + intros x y z (j & Hj & Hd) Hd'.
      pose proof (Hdis _ _ _ _ _ Hd Hd'). lia.
  - intros [] s' H. eapply mapsCells_ext; [| exact H].
    intros x y z. split; intros (j & Hj & Hd); exists j; split; auto; lia.
Qed.

End Sweep.

Section Sweeps.
Context {O : Oracle}.

Lemma wp_sweep_xyz sz f (body : Z -> Z -> Z -> M unit) s :
  rowsOk sz (grid s) ->
  (forall x y z s1, inVolume sz x y z -> rowsOk sz (grid s1) ->
     wp (body x y z) (fun _ s2 => mapsCells (atCell x y z) f s1 s2)
       (fun _ => False) s1) ->
  wp (forZ 0 (width sz) (fun x =>
        forZ 0 (height sz) (fun y =>
          forZ 0 (width sz) (fun z => body x y z))))
    (fun _ s' => mapsCells (inVolume sz) f s s') (fun _ => False) s.
Proof.
  intros Hr Hbody.
  eapply wp_mono;
    [apply (wp_forZ_maps sz (fun x x' y' z' =>
       x' = x /\ 0 <= y' < height sz /\ 0 <= z' < width sz) f);
      [exact Hr | intros; lia |]
    | | intros ? HE; exact HE].
  - intros x s1 Hx H1.
    eapply wp_mono;
      [apply (wp_forZ_maps sz (fun y x' y' z' =>
         x' = x /\ y' = y /\ 0 <= z' < width sz) f);
        [exact H1 | intros; lia |]
      | | intros ? HE; exact HE].
    + intros y s2 Hy H2.
      eapply wp_mono;
        [apply (wp_forZ_maps sz (fun z => atCell x y z) f);
          [exact H2 | unfold atCell; intros; congruence |]
        | | intros ? HE; exact HE].
      * intros z s3 Hz H3. apply Hbody; [unfold inVolume; lia | exact H3].
      * intros [] s3 H3. simpl in H3. eapply mapsCells_ext; [| exact H3].
        unfold atCell. intros x' y' z'. split.
        -- intros (k & Hk & [= -> -> ->]). lia.
        -- intros (-> & -> & Hz). exists z'. split; [lia | reflexivity].
    + intros [] s2 H2. simpl in H2. eapply mapsCells_ext; [| exact H2].
      intros x' y' z'. split.
      * intros (k & Hk & -> & -> & Hz). lia.
      * intros (-> & Hy & Hz). exists y'. split; [lia | auto].
  - intros [] s1 H1. simpl in H1. eapply mapsCells_ext; [| exact H1].
    unfold inVolume. intros x' y' z'. split.
    + intros (k & Hk & -> & Hy & Hz). lia.
    + intros (Hx & Hy & Hz). exists x'. split; [lia | auto].
Qed.

Lemma wp_sweep_xzy sz f (body : Z -> Z -> Z -> M unit) s :
  rowsOk sz (grid s) ->
  (forall x y z s1, inVolume sz x y z -> rowsOk sz (grid s1) ->
     wp (body x z y) (fun _ s2 => mapsCells (atCell x y z) f s1 s2)
       (fun _ => False) s1) ->
  wp (forZ 0 (width sz) (fun x =>
        forZ 0 (width sz) (fun z =>
          forZ 0 (height sz) (fun y => body x z y))))
    (fun _ s' => mapsCells (inVolume sz) f s s') (fun _ => False) s.
Proof.
  intros Hr Hbody.
  eapply wp_mono;
    [apply (wp_forZ_maps sz (fun x x' y' z' =>
       x' = x /\ 0 <= y' < height sz /\ 0 <= z' < width sz) f);
      [exact Hr | intros; lia |]
    | | intros ? HE; exact HE].
  - intros x s1 Hx H1.
    eapply wp_mono;
      [apply (wp_forZ_maps sz (fun z x' y' z' =>
         x' = x /\ 0 <= y' < height sz /\ z' = z) f);
        [exact H1 | intros; lia |]
      | | intros ? HE; exact HE].
    + intros z s2 Hz H2.
      eapply wp_mono;
        [apply (wp_forZ_maps sz (fun y => atCell x y z) f);
          [exact H2 | unfold atCell; intros; congruence |]
        | | intros ? HE; exact HE].
      * intros y s3 Hy H3. apply Hbody; [unfold inVolume; lia | exact H3].
      * intros [] s3 H3. simpl in H3. eapply mapsCells_ext; [| exact H3].
        unfold atCell. intros x' y' z'. split.
        -- intros (k & Hk & [= -> -> ->]). lia.
        -- intros (-> & Hy & ->). exists y'. split; [lia | reflexivity].
    + intros [] s2 H2. simpl in H2. eapply mapsCells_ext; [| exact H2].
      intros x' y' z'. split.
      * intros (k & Hk & -> & Hy & ->). lia.
      * intros (-> & Hy & Hz). exists z'. split; [lia | auto].
  - intros [] s1 H1. simpl in H1. eapply mapsCells_ext; [| exact H1].
    unfold inVolume. intros x' y' z'. split.
    + intros (k & Hk & -> & Hy & Hz). lia.
    + intros (Hx & Hy & Hz). exists x'. split; [lia | auto].
Qed.

End Sweeps.

(** ** Resource stage *)

Section Resources.
Context {O : Oracle}.

Lemma stampCells_last simplex chunkPos entries x y z old :
  stampCells simplex chunkPos entries x y z old =
    match lastExceeding simplex chunkPos entries x y z with
    | Some config => Some (id config)
    | None => old
    end.
Proof.
  unfold stampCells, lastExceeding. revert old.
  induction entries as [|[name config] rest IH]; intros old; [reflexivity |].
  simpl fold_left. rewrite IH. rewrite fmap_cons. simpl snd.
  unfold stampCell, resourcePasses.
  destruct (scarcity config
            <? resourceSample simplex chunkPos config x y z)%float eqn:Hp.
  - rewrite filter_cons_True by exact Hp.
    destruct (filter _ (snd <$> rest)) as [|c l] eqn:Hf; [reflexivity |].
    change (last (config :: c :: l)) with (last (c :: l)).
    rewrite (last_cons c l). destruct (last l); reflexivity.
  - rewrite filter_cons_False; [reflexivity |].
    unfold exceedsScarcity. rewrite Hp. discriminate.
Qed.

Lemma wp_stampResource simplex sz chunkPos config s :
  rowsOk sz (grid s) ->
  wp (stampResource simplex sz chunkPos config)
    (fun _ s' =>
       mapsCells (inVolume sz) (stampCell simplex chunkPos config) s s')
    (fun _ => False) s.
Proof.
  intros Hr. unfold stampResource. apply wp_sweep_xyz; [exact Hr |].
  intros x y z s1 (Hx & Hy & Hz) H1.
  destruct (resourcePasses simplex chunkPos config x y z) eqn:Hp.
  - apply wp_writeBlock.
    + intros Hrow. apply mapsCells_written; [exact Hrow |].
      unfold stampCell. rewrite Hp. reflexivity.
    + intros Hnone. destruct (H1 x y Hx Hy) as [r Hrow]. congruence.
  - apply wp_ret. apply mapsCells_skip. unfold stampCell. rewrite Hp.
    reflexivity.
Qed.

Lemma wp_stampResources simplex sz chunkPos entries s :
  rowsOk sz (grid s) ->
  wp (stampResources simplex sz chunkPos entries)
    (fun _ s' =>
       mapsCells (inVolume sz) (stampCells simplex chunkPos entries) s s')
    (fun _ => False) s.
Proof.
  revert s. induction entries as [|[name config] rest IH]; intros s Hr.
  - apply wp_ret. split; try reflexivity.
  - simpl stampResources. apply wp_bind.
    eapply wp_mono; [apply wp_stampResource, Hr | | intros ? HE; exact HE].
    intros [] s1 H1. simpl.
    eapply wp_mono;
      [apply IH; eapply mapsCells_rowsOk; eauto | | intros ? HE; exact HE].
    intros [] s2 H2. simpl.
    exact (mapsCells_seq _ _ _ _ _ _ H1 H2).
Qed.

Lemma wp_generateResources entries sz chunkPos s :
  rowsOk sz (grid s) ->
  wp (generateResources entries sz chunkPos)
    (fun _ s' =>
       mapsCells (inVolume sz)
         (stampCells (fst (simplex_new (rng s))) chunkPos entries)
         (withSimplex s) s')
    (fun _ => False) s.
Proof.
  intros Hr. unfold generateResources. apply wp_bind, wp_newSimplexNoise.
  apply (wp_stampResources _ sz chunkPos entries (withSimplex s)). exact Hr.
Qed.

Lemma generateResources_populated entries sz chunkPos s :
  populated sz (grid s) ->
  populated sz (grid (final (generateResources entries sz chunkPos s))).
Proof.
  intros Hp.
  pose proof (wp_generateResources entries sz chunkPos s
                (populated_rowsOk _ _ Hp)) as H.
  apply wp_ok in H as ([] & s1 & Hrun1 & Hm1). rewrite Hrun1. simpl.
  intros x y z Hx Hy Hz. destruct (Hp x y z Hx Hy Hz) as [b0 Hb0].
  rewrite (mc_in _ _ _ _ Hm1 x y z) by (unfold inVolume; auto).
  simpl. rewrite Hb0, stampCells_last.
  destruct (lastExceeding _ _ _ _ _ _); eauto.
Qed.

(** C8.  On a populated grid [generateResources] returns, and afterwards
    every cell of the volume holds the identifier of the last resource, in
    configuration order, whose three-dimensional noise sample at
    ((origin.x+x)/scale.x, (origin.y+y)/scale.y, (origin.z+z)/scale.z)
    strictly exceeds its scarcity threshold, or the value it had on entry
    when no resource passes. *)
Theorem generateResources_last_wins (entries : OreEntries) (sz : WorldSize)
    (chunkPos : Vector3) (s : State) :
  populated sz (grid s) ->
  exists s',
    generateResources entries sz chunkPos s = Ok tt s' /\
    forall x y z, inVolume sz x y z ->
      cell (grid s') x y z =
        match lastExceeding (fst (simplex_new (rng s))) chunkPos entries x y z
        with
        | Some config => Some (id config)
        | None => cell (grid s) x y z
        end.
Proof.
  intros Hp.
  pose proof (wp_generateResources entries sz chunkPos s
                (populated_rowsOk _ _ Hp)) as H.
  apply wp_ok in H as ([] & s' & Hrun & Hm).
  exists s'. split; [exact Hrun |].
  intros x y z Hv. rewrite (mc_in _ _ _ _ Hm x y z Hv).
  apply stampCells_last.
Qed.

End Resources.

(** ** Terrain stage *)

Section Terrain.
Context {O : Oracle}.

Lemma clampIndex_range v top h :
  clampIndex v top = Some h -> 0 <= top -> 0 <= h <= top.
Proof. destruct v; simpl; intros [= <-] Ht; lia. Qed.

Lemma columnHeight_range simplex sz params chunkPos x z h :
  0 < height sz ->
  columnHeight simplex sz params chunkPos x z = Some h ->
  0 <= h < height sz.
Proof.
  intros H Hh. unfold columnHeight in Hh.
  apply clampIndex_range in Hh; lia.
Qed.

Lemma wp_terrainCell h nSurface nBedrock x z y f s :
  is_Some (row (grid s) x y) ->
  (forall old, f x y z old = terrainValue h nSurface nBedrock y old) ->
  wp (terrainCell h nSurface nBedrock x z y)
    (fun _ s' => mapsCells (atCell x y z) f s s') (fun _ => False) s.
Proof.
  intros Hrow Hf.
  assert (Hno : row (grid s) x y = None -> False).
  { intros Hn. destruct Hrow as [r Hr]. congruence. }
  assert (Hw : forall v, f x y z (cell (grid s) x y z) = Some v ->
            wp (writeBlock ByTerrain x y z v)
              (fun _ s' => mapsCells (atCell x y z) f s s')
              (fun _ => False) s).
  { intros v Hv. apply wp_writeBlock; [| exact Hno].
    intros _. apply (mapsCells_written s ByTerrain x y z v f Hrow Hv). }
  unfold terrainCell.
  pose proof (Hf (cell (grid s) x y z)) as Hc. unfold terrainValue in Hc.
  destruct h as [h|]; [| apply wp_ret, mapsCells_skip; exact Hc].
  unfold terrainCellAt. unfold terrainValueAt in Hc.
  destruct (y <? h) eqn:Hlt.
  - destruct (ofZ y <? nBedrock)%float; [apply Hw, Hc |].
    destruct (ofZ y <? ofZ h - nSurface)%float; [| apply Hw, Hc].
    apply wp_bind, wp_readBlock; [| exact Hno]. intros _.
    destruct (strictEq (cell (grid s) x y z) Air); [apply Hw, Hc |].
    apply wp_ret, mapsCells_skip. exact Hc.
  - destruct (y =? h) eqn:Heq; [apply Hw, Hc |].
    assert (Hgt : (y >? h) = true) by lia. rewrite Hgt. apply Hw, Hc.
Qed.

Lemma wp_generateTerrain sz params chunkPos s :
  rowsOk sz (grid s) ->
  wp (generateTerrain sz params chunkPos)
    (fun _ s' =>
       mapsCells (inVolume sz)
         (terrainMap (fst (simplex_new (rng s))) sz params chunkPos)
         (withSimplex s) s')
    (fun _ => False) s.
Proof.
  intros Hr. unfold generateTerrain. apply wp_bind, wp_newSimplexNoise.
  unfold terrainColumns.
  apply (wp_sweep_xzy sz _
           (fun x z y =>
              terrainCell
                (columnHeight (fst (simplex_new (rng s))) sz params chunkPos x z)
                (numSurfaceBlocks (fst (simplex_new (rng s))) params x z)
                (numBedrockBlocks (fst (simplex_new (rng s))) params x z)
                x z y));
    [exact Hr |].
  intros x y z s1 (Hx & Hy & Hz) H1.
  apply wp_terrainCell; [apply H1; assumption | reflexivity].
Qed.

(** Terrain on a populated grid: it returns, and every cell of the volume
    went through [terrainMap]. *)
Lemma generateTerrain_cells sz params chunkPos s :
  populated sz (grid s) ->
  exists s',
    generateTerrain sz params chunkPos s = Ok tt s' /\
    rng s' = snd (simplex_new (rng s)) /\
    forall x y z, inVolume sz x y z ->
      exists b0,
        cell (grid s) x y z = Some b0 /\
        cell (grid s') x y z =
          terrainMap (fst (simplex_new (rng s))) sz params chunkPos x y z
            (Some b0).
Proof.
  intros Hp.
  pose proof (wp_generateTerrain sz params chunkPos s
                (populated_rowsOk _ _ Hp)) as H.
  apply wp_ok in H as ([] & s' & Hrun & Hm).
  exists s'. split; [exact Hrun |]. split; [apply (mc_rng _ _ _ _ Hm) |].
  intros x y z Hv. destruct Hv as (Hx & Hy & Hz).
  destruct (Hp x y z Hx Hy Hz) as [b0 Hb0]. exists b0. split; [exact Hb0 |].
  rewrite (mc_in _ _ _ _ Hm x y z) by (unfold inVolume; auto).
  simpl. rewrite Hb0. reflexivity.
Qed.

Lemma terrainValue_solid h nS nB y b0 :
  y <= h ->
  exists b, terrainValue (Some h) nS nB y (Some b0) = Some b /\ b <> Air.
Proof.
  intros Hy. unfold terrainValue, terrainValueAt.
  destruct (y <? h) eqn:Hlt.
  - destruct (ofZ y <? nB)%float;
      [exists Bedrock; split; [auto | discriminate] |].
    destruct (ofZ y <? ofZ h - nS)%float;
      [| exists Dirt; split; [auto | discriminate]].
    simpl. destruct (bool_decide (b0 = Air)) eqn:Hb.
    + exists Stone. split; [auto | discriminate].
    + exists b0. split; [auto |]. apply bool_decide_eq_false in Hb. exact Hb.
  - assert (Heq : (y =? h) = true) by lia. rewrite Heq.
    exists Grass. split; [auto | discriminate].
Qed.

Lemma terrainValue_top h nS nB old :
  terrainValue (Some h) nS nB h old = Some Grass.
Proof.
  unfold terrainValue, terrainValueAt.
  rewrite Z.ltb_irrefl, Z.eqb_refl. reflexivity.
Qed.

Lemma terrainValue_air h nS nB y old :
  h < y -> terrainValue (Some h) nS nB y old = Some Air.
Proof.
  intros Hy. unfold terrainValue, terrainValueAt.
  assert (H1 : (y <? h) = false) by lia.
  assert (H2 : (y =? h) = false) by lia.
  rewrite H1, H2. reflexivity.
Qed.

(** Outside the stone band the terrain stage leaves one of its own four
    materials. *)
Lemma terrainValue_band h nS nB y old b :
  terrainValue (Some h) nS nB y old = Some b ->
  b <> Air -> b <> Bedrock -> b <> Dirt -> b <> Grass ->
  y < h /\ (ofZ y <? nB)%float = false
  /\ (ofZ y <? ofZ h - nS)%float = true.
Proof.
  unfold terrainValue, terrainValueAt. intros Hv Ha Hb Hd Hg.
  destruct (y <? h) eqn:Hlt.
  - destruct (ofZ y <? nB)%float eqn:H1; [congruence |].
    destruct (ofZ y <? ofZ h - nS)%float eqn:H2; [| congruence].
    split; [lia | auto].
  - destruct (y =? h); congruence.
Qed.

Lemma terrainValue_bedrock h nS nB y old :
  y < h -> (ofZ y <? nB)%float = true ->
  terrainValue (Some h) nS nB y old = Some Bedrock.
Proof.
  intros Hy Hb. unfold terrainValue, terrainValueAt.
  assert (H1 : (y <? h) = true) by lia. rewrite H1, Hb. reflexivity.
Qed.

End Terrain.

Section TerrainClaims.
Context {O : Oracle}.

(** C2.  On a populated grid of positive height [generateTerrain] returns,
    and in the grid it leaves every column (x,z) whose surface height is a
    number (not NaN) has exactly one index h in [0, height) such that the
    cells with y in [0, h] are not Air, the cells with y in (h, height) are
    Air and the cell at y = h is Grass; that index is the surface height
    that the code computes for the column,
    max(0, min(floor(height * scaledNoise), height - 1)) in doubles. *)
Theorem generateTerrain_column_profile (sz : WorldSize) (params : WorldParams)
    (chunkPos : Vector3) (s : State) :
  0 < height sz ->
  populated sz (grid s) ->
  exists s',
    generateTerrain sz params chunkPos s = Ok tt s' /\
    forall x z h, 0 <= x < width sz -> 0 <= z < width sz ->
      columnHeight (fst (simplex_new (rng s))) sz params chunkPos x z
      = Some h ->
      (0 <= h < height sz /\ columnProfile sz (grid s') x z h) /\
      forall h', 0 <= h' < height sz /\ columnProfile sz (grid s') x z h' ->
        h' = h.
Proof.
  intros HH Hp.
  destruct (generateTerrain_cells sz params chunkPos s Hp)
    as (s' & Hrun & _ & Hcells).
  exists s'. split; [exact Hrun |].
  intros x z h Hx Hz Hcol.
  pose proof (columnHeight_range (fst (simplex_new (rng s))) sz params
                chunkPos x z h HH Hcol) as Hh.
  assert (Hprof : columnProfile sz (grid s') x z h).
  { repeat split.
    - intros y Hy.
      destruct (Hcells x y z) as (b0 & _ & Hc); [unfold inVolume; lia |].
      rewrite Hc. unfold terrainMap. rewrite Hcol.
      apply terrainValue_solid. lia.
    - intros y Hy.
      destruct (Hcells x y z) as (b0 & _ & Hc); [unfold inVolume; lia |].
      rewrite Hc. unfold terrainMap. rewrite Hcol.
      apply terrainValue_air. lia.
    - destruct (Hcells x h z) as (b0 & _ & Hc); [unfold inVolume; lia |].
      rewrite Hc. unfold terrainMap. rewrite Hcol.
      apply terrainValue_top. }
  split; [split; assumption |].
  intros h' (Hh' & Hsolid' & Hair' & Hgrass').
  destruct Hprof as (Hsolid & Hair & Hgrass).
  destruct (Z.lt_trichotomy h' h) as [Hlt|[Heq|Hgt]]; [| exact Heq |].
  - rewrite (Hair' h) in Hgrass by lia. discriminate.
  - rewrite (Hair h') in Hgrass' by lia. discriminate.
Qed.

(** C3, as amended.  On a populated grid [generateTerrain] returns, and
    afterwards every cell (x,y,z) of the volume with y below the column's
    surface height and y < numBedrockBlocks(x,z) is Bedrock. *)
Theorem generateTerrain_bedrock_below_surface (sz : WorldSize)
    (params : WorldParams) (chunkPos : Vector3) (s : State) :
  populated sz (grid s) ->
  exists s',
    generateTerrain sz params chunkPos s = Ok tt s' /\
    forall x y z h, inVolume sz x y z ->
      let simplex := fst (simplex_new (rng s)) in
      columnHeight simplex sz params chunkPos x z = Some h ->
      y < h ->
      (ofZ y <? numBedrockBlocks simplex params x z)%float = true ->
      cell (grid s') x y z = Some Bedrock.
Proof.
  intros Hp.
  destruct (generateTerrain_cells sz params chunkPos s Hp)
    as (s' & Hrun & _ & Hcells).
  exists s'. split; [exact Hrun |].
  intros x y z h Hv simplex Hcol Hy Hb.
  destruct (Hcells x y z Hv) as (b0 & _ & Hc). rewrite Hc.
  unfold terrainMap. fold simplex. rewrite Hcol.
  apply terrainValue_bedrock; assumption.
Qed.

(** C4.  On a populated grid [generateResources] followed by
    [generateTerrain] returns, and afterwards, in every column whose
    surface height is a number (not NaN), every cell of the volume that
    holds a resource identifier lies in the band that the code's own
    comparisons in doubles delimit: [y < numBedrockBlocks] is false
    (numBedrockBlocks(x,z) <= y) and [y < height - numSurfaceBlocks] is
    true; at every y outside this band the cell holds no resource
    identifier. *)
Theorem generateTerrain_resource_band (entries : OreEntries) (sz : WorldSize)
    (params : WorldParams) (chunkPos : Vector3) (s : State) :
  populated sz (grid s) ->
  exists s1 s2,
    generateResources entries sz chunkPos s = Ok tt s1 /\
    generateTerrain sz params chunkPos s1 = Ok tt s2 /\
    forall x y z b h, inVolume sz x y z ->
      cell (grid s2) x y z = Some b ->
      let simplex := fst (simplex_new (rng s1)) in
      columnHeight simplex sz params chunkPos x z = Some h ->
      let inBand :=
        ((ofZ y <? numBedrockBlocks simplex params x z)%float = false /\
         (ofZ y <? ofZ h - numSurfaceBlocks simplex params x z)%float
         = true) in
      (is_resource b = true -> inBand) /\
      (~ inBand -> is_resource b = false).
Proof.
  intros Hp.
  pose proof (wp_generateResources entries sz chunkPos s
                (populated_rowsOk _ _ Hp)) as H.
  apply wp_ok in H as ([] & s1 & Hrun1 & Hm1).
  assert (Hp1 : populated sz (grid s1)).
  { intros x y z Hx Hy Hz. destruct (Hp x y z Hx Hy Hz) as [b0 Hb0].
    rewrite (mc_in _ _ _ _ Hm1 x y z) by (unfold inVolume; auto).
    simpl. rewrite Hb0, stampCells_last.
    destruct (lastExceeding _ _ _ _ _ _); eauto. }
  destruct (generateTerrain_cells sz params chunkPos s1 Hp1)
    as (s2 & Hrun2 & _ & Hcells).
  exists s1, s2. split; [exact Hrun1 |]. split; [exact Hrun2 |].
  intros x y z b h Hv Hb simplex Hcol inBand.
  destruct (Hcells x y z Hv) as (b0 & _ & Hc). rewrite Hc in Hb.
  unfold terrainMap in Hb. fold simplex in Hb. rewrite Hcol in Hb.
  assert (Hres : is_resource b = true -> inBand).
  { intros Hr.
    destruct (terrainValue_band _ _ _ _ _ _ Hb) as (_ & H1 & H2);
      try (intros ->; discriminate).
    split; assumption. }
  split; [exact Hres |].
  intros Hout. destruct (is_resource b); [exfalso; auto | reflexivity].
Qed.

End TerrainClaims.

(** ** Assignments recorded by a computation *)

Section Traces.
Context {O : Oracle}.

Lemma emits_refl P s : emits P s s.
Proof. exists []. split; [symmetry; apply app_nil_r | constructor]. Qed.

Lemma emits_same P s s' : trace s' = trace s -> emits P s s'.
Proof. intros H. exists []. split; [rewrite H; symmetry; apply app_nil_r | constructor]. Qed.

Lemma emits_trans P s1 s2 s3 : emits P s1 s2 -> emits P s2 s3 -> emits P s1 s3.
Proof.
  intros (t1 & H1 & F1) (t2 & H2 & F2). exists (t1 ++ t2). split.
  - rewrite H2, H1. symmetry. apply app_assoc.
  - apply Forall_app. split; assumption.
Qed.

Lemma emits_written (P : WriteRec -> Prop) s st x y z v :
  P (mkWriteRec st x y z (cell (grid s) x y z) v) ->
  emits P s (written s st x y z v).
Proof. intros H. exists [mkWriteRec st x y z (cell (grid s) x y z) v]. split; [reflexivity | repeat constructor; exact H]. Qed.

Lemma traces_ret {A} P (a : A) : traces P (ret a).
Proof. intros s. apply wp_ret, emits_refl. Qed.

(** Sequencing, where the continuation may rely on a fact [F] about the
    value that [m] returns. *)
Lemma traces_bind_val {A B} P (F : A -> Prop) (m : M A) (k : A -> M B) :
  (forall s, wp m (fun a s' => F a /\ emits P s s') (fun s' => emits P s s') s) ->
  (forall a, F a -> traces P (k a)) ->
  traces P (bind m k).
Proof.
  intros Hm Hk s. apply wp_bind.
  eapply wp_mono; [apply Hm | | intros ? HE; exact HE].
  intros a s1 [Ha H1]. simpl.
  eapply wp_mono; [apply (Hk a Ha s1) | |]; simpl;
    intros; eapply emits_trans; eauto.
Qed.

Lemma traces_bind {A B} P (m : M A) (k : A -> M B) :
  traces P m -> (forall a, traces P (k a)) -> traces P (bind m k).
Proof.
  intros Hm Hk. apply (traces_bind_val P (fun _ => True)); [| auto].
  intros s. eapply wp_mono; [apply Hm | simpl; auto | auto].
Qed.

Lemma traces_foldM P (body : Z -> M unit) (l : list Z) :
  (forall k, k ∈ l -> traces P (body k)) -> traces P (foldM body l).
Proof.
  intros Hbody s.
  eapply wp_mono;
    [apply (wp_foldM (fun _ s' => emits P s s') (fun s' => emits P s s'))
    | intros [] ? HQ; exact HQ | intros ? HE; exact HE].
  - apply emits_refl.
  - intros pre k post s1 Hl H1.
    assert (Hin : k ∈ l).
    { rewrite Hl. apply elem_of_app. right. apply list_elem_of_here. }
    eapply wp_mono; [apply (Hbody k Hin s1) | |]; simpl;
      intros; eapply emits_trans; eauto.
Qed.

Lemma traces_forZ P lo hi (body : Z -> M unit) :
  (forall k, lo <= k < hi -> traces P (body k)) -> traces P (forZ lo hi body).
Proof.
  intros Hbody. apply traces_foldM. intros k Hin. apply Hbody.
  apply elem_of_seqZ in Hin. lia.
Qed.

Lemma traces_forDown P hi lo (body : Z -> M unit) :
  (forall k, lo <= k <= hi -> traces P (body k)) ->
  traces P (forDown hi lo body).
Proof.
  intros Hbody. apply traces_foldM. intros k Hin. apply Hbody.
  rewrite elem_of_reverse, elem_of_seqZ in Hin. lia.
Qed.

Lemma traces_readBlock P x y z : traces P (readBlock x y z).
Proof. intros s. apply wp_readBlock; intros; apply emits_refl. Qed.

Lemma traces_random P : traces P random.
Proof. intros s. apply wp_random. intros u r _. apply emits_same. reflexivity. Qed.

Lemma traces_newSimplexNoise P : traces P newSimplexNoise.
Proof. intros s. apply wp_newSimplexNoise. apply emits_same. reflexivity. Qed.

Lemma traces_drawRange P r : traces P (drawRange r).
Proof. apply traces_bind; [apply traces_random | intros u; apply traces_ret]. Qed.

Lemma traces_writeBlock (P : WriteRec -> Prop) st x y z v :
  (forall old, P (mkWriteRec st x y z old v)) ->
  traces P (writeBlock st x y z v).
Proof.
  intros H s. apply wp_writeBlock; intros.
  - apply (emits_written P s st x y z v). apply H.
  - apply emits_refl.
Qed.

Lemma traces_final {A} P (m : M A) s :
  traces P m -> emits P s (final (m s)).
Proof. intros H. specialize (H s). unfold wp in H. destruct (m s); exact H. Qed.

End Traces.

(** ** Tree stage: what is assigned, and where *)

Section TreeTraces.
Context {O : Oracle}.

Lemma strictEq_true b c : strictEq b c = true -> b = Some c.
Proof.
  destruct b as [b|]; simpl; [| discriminate].
  intros H. apply bool_decide_eq_true in H. congruence.
Qed.

Lemma traces_canopyCell_leafOk params baseX topY baseZ R x y z :
  traces leafOk (canopyCell params baseX topY baseZ R x y z).
Proof.
  intros s. unfold canopyCell.
  destruct (x * x + y * y + z * z >? R * R) eqn:Hsphere;
    [apply wp_ret, emits_refl |].
  apply wp_bind, wp_readBlock; [| intros; apply emits_refl]. intros Hrow.
  destruct (strictEq (cell (grid s) (baseX + x) (topY + y) (baseZ + z)) Air)
    eqn:Hair; simpl; [| apply wp_ret, emits_refl].
  apply strictEq_true in Hair.
  apply wp_bind, wp_random. intros u r Hu.
  destruct (Qltb (density (canopy (trees params))) u);
    [| apply wp_ret, emits_same; reflexivity].
  apply wp_writeBlock; simpl; [| intros; apply emits_same; reflexivity].
  intros _. eexists. split; [reflexivity |].
  repeat constructor. intros _. simpl.
  exists baseX, topY, baseZ, R. split; [reflexivity |].
  split; [| exact Hair].
  replace (baseX + x - baseX) with x by lia.
  replace (topY + y - topY) with y by lia.
  replace (baseZ + z - baseZ) with z by lia. lia.
Qed.

Lemma traces_generateTrees_leafOk sz params chunkPos :
  traces leafOk (generateTrees sz params chunkPos).
Proof.
  unfold generateTrees.
  apply traces_bind; [apply traces_newSimplexNoise |]. intros simplex.
  unfold treeColumns.
  apply traces_forZ. intros baseX _. apply traces_forZ. intros baseZ _.
  unfold treeColumn. destruct (treeSkipped _ _ _ _ _); [apply traces_ret |].
  apply traces_forDown. intros y _. unfold scanCell.
  apply traces_bind; [apply traces_readBlock |]. intros b.
  destruct (negb (strictEq b Grass)); [apply traces_ret |].
  unfold plantTree.
  apply traces_bind; [apply traces_drawRange |]. intros trunk.
  apply traces_bind.
  { apply traces_forZ. intros i _. apply traces_writeBlock.
    intros old. unfold leafOk. simpl. discriminate. }
  intros _. apply traces_bind; [apply traces_drawRange |]. intros R.
  unfold generateCanopy.
  apply traces_forZ. intros x _. apply traces_forZ. intros y' _.
  apply traces_forZ. intros z _. apply traces_canopyCell_leafOk.
Qed.

(** C7.  In every run of [generateTrees], from any grid and whether it
    returns or throws, each assignment of Leaves is made by a canopy at an
    offset (dx,dy,dz) from that canopy's centre (baseX, topY, baseZ) with
    dx^2+dy^2+dz^2 <= R^2 for the radius R drawn for that tree, and the
    cell it replaces held Air at that moment. *)
Theorem generateTrees_leaves_in_sphere_over_air (sz : WorldSize)
    (params : WorldParams) (chunkPos : Vector3) (s : State) :
  exists t,
    trace (final (generateTrees sz params chunkPos s)) = trace s ++ t /\
    Forall leafOk t.
Proof. apply traces_final, traces_generateTrees_leafOk. Qed.

Lemma traces_drawRange_val `{!OracleRange O} P (r : Range) :
  min r <= max r ->
  forall s,
    wp (drawRange r)
      (fun n s' => min r <= n <= max r /\ emits P s s')
      (fun s' => emits P s s') s.
Proof.
  intros Hr s. apply wp_drawRange; [exact Hr |].
  intros n rs Hn. split; [exact Hn | apply emits_same; reflexivity].
Qed.

Lemma traces_generateTrees_horizontal `{!OracleRange O} sz params chunkPos :
  0 <= min (size (canopy (trees params)))
    <= max (size (canopy (trees params))) ->
  traces (horizontalOk sz) (generateTrees sz params chunkPos).
Proof.
  intros Hsize. unfold generateTrees.
  apply traces_bind; [apply traces_newSimplexNoise |]. intros simplex.
  unfold treeColumns.
  apply traces_forZ. intros baseX HX. apply traces_forZ. intros baseZ HZ.
  unfold treeColumn. destruct (treeSkipped _ _ _ _ _); [apply traces_ret |].
  apply traces_forDown. intros y _. unfold scanCell.
  apply traces_bind; [apply traces_readBlock |]. intros b.
  destruct (negb (strictEq b Grass)); [apply traces_ret |].
  unfold plantTree.
  apply traces_bind; [apply traces_drawRange |]. intros trunk.
  apply traces_bind.
  { apply traces_forZ. intros i _. apply traces_writeBlock.
    intros old. unfold horizontalOk. simpl. lia. }
  intros _.
  apply (traces_bind_val _
           (fun R => min (size (canopy (trees params))) <= R
                     <= max (size (canopy (trees params))))).
  { apply traces_drawRange_val. lia. }
  intros R HR. unfold generateCanopy.
  apply traces_forZ. intros x Hx. apply traces_forZ. intros y' _.
  apply traces_forZ. intros z Hz. unfold canopyCell.
  destruct (_ >? _); [apply traces_ret |].
  apply traces_bind; [apply traces_readBlock |]. intros b'.
  destruct (negb (strictEq b' Air)); [apply traces_ret |].
  apply traces_bind; [apply traces_random |]. intros u.
  destruct (Qltb _ u); [| apply traces_ret].
  apply traces_writeBlock. intros old. unfold horizontalOk. simpl. lia.
Qed.

(** C10.  When uniform draws lie in [0,1] and 0 <= canopy.size.min <=
    canopy.size.max, every assignment made by [generateTrees], trunk or
    canopy, from any grid and whether the run returns or throws, has its x
    index and its z index in [0, width). *)
Theorem generateTrees_horizontal_in_bounds `{!OracleRange O}
    (sz : WorldSize) (params : WorldParams) (chunkPos : Vector3)
    (s : State) :
  0 <= min (size (canopy (trees params)))
    <= max (size (canopy (trees params))) ->
  exists t,
    trace (final (generateTrees sz params chunkPos s)) = trace s ++ t /\
    Forall (horizontalOk sz) t.
Proof.
  intros Hsize. apply traces_final.
  apply traces_generateTrees_horizontal. exact Hsize.
Qed.

End TreeTraces.

(** ** Grid allocator *)

Section Allocator.
Context {O : Oracle}.

Lemma building_ext Dp Dr Dc Dp' Dr' Dc' g :
  (forall x, Dp x <-> Dp' x) ->
  (forall x y, Dr x y <-> Dr' x y) ->
  (forall x y z, Dc x y z <-> Dc' x y z) ->
  building Dp Dr Dc g -> building Dp' Dr' Dc' g.
Proof.
  intros Hp Hr Hc (H1 & H2 & H3). repeat split.
  - intros H. apply Hp, H1, H.
  - intros H. apply H1, Hp, H.
  - intros H. apply Hr, H2, H.
  - intros H. apply H2, Hr, H.
  - apply H3 in H. tauto.
  - apply H3 in H. apply Hc. tauto.
  - intros [-> H]. apply H3. split; [reflexivity | apply Hc, H].
Qed.

Lemma row_plane (g : Grid) x y : is_Some (row g x y) -> is_Some (g !! x).
Proof. unfold row. destruct (g !! x); [eauto | intros [? ?]; discriminate]. Qed.

Lemma building_plane Dp Dr Dc (g : Grid) x :
  building Dp Dr Dc g -> ~ Dp x ->
  building (fun x' => Dp x' \/ x' = x) Dr Dc (<[x := ∅]> g).
Proof.
  intros (H1 & H2 & H3) Hnew.
  assert (Hrow : forall x' y', row (<[x := ∅]> g) x' y' = row g x' y').
  { intros x' y'. unfold row. destruct (decide (x' = x)) as [->|Hne].
    - rewrite lookup_insert_eq, lookup_empty.
      destruct (g !! x) as [p|] eqn:Hp; [| reflexivity].
      exfalso. apply Hnew, H1. eauto.
    - rewrite lookup_insert_ne by congruence. reflexivity. }
  repeat split.
  - destruct (decide (x0 = x)) as [->|Hne]; [auto |].
    rewrite lookup_insert_ne by congruence. intros H. left. apply H1, H.
  - destruct (decide (x0 = x)) as [->|Hne];
      [rewrite lookup_insert_eq; eauto |].
    rewrite lookup_insert_ne by congruence. intros [H| ->]; [apply H1, H | congruence].
  - rewrite Hrow. apply H2.
  - rewrite Hrow. apply H2.
  - unfold cell in *. rewrite Hrow in H. apply (H3 x0 y z b) in H. tauto.
  - unfold cell in *. rewrite Hrow in H. apply (H3 x0 y z b) in H. tauto.
  - intros Hb. unfold cell. rewrite Hrow. apply (H3 x0 y z b). exact Hb.
Qed.

Lemma building_row Dp Dr Dc (g : Grid) p x y :
  building Dp Dr Dc g -> g !! x = Some p -> ~ Dr x y ->
  building Dp (fun x' y' => Dr x' y' \/ (x' = x /\ y' = y)) Dc
    (<[x := <[y := ∅]> p]> g).
Proof.
  intros (H1 & H2 & H3) Hp Hnew.
  assert (Hrow : forall x' y', (x', y') <> (x, y) ->
            row (<[x := <[y := ∅]> p]> g) x' y' = row g x' y').
  { intros x' y' Hne. unfold row. destruct (decide (x' = x)) as [->|Hx].
    - rewrite lookup_insert_eq, Hp. rewrite lookup_insert_ne by congruence.
      reflexivity.
    - rewrite lookup_insert_ne by congruence. reflexivity. }
  assert (Hnew_row : row (<[x := <[y := ∅]> p]> g) x y = Some ∅).
  { unfold row. rewrite lookup_insert_eq. apply lookup_insert_eq. }
  assert (Hold_row : row g x y = None).
  { destruct (row g x y) eqn:Hr; [| reflexivity].
    exfalso. apply Hnew, H2. eauto. }
  repeat split.
  - destruct (decide (x0 = x)) as [->|Hne].
    + intros _. apply H1. eauto.
    + rewrite lookup_insert_ne by congruence. apply H1.
  - destruct (decide (x0 = x)) as [->|Hne];
      [rewrite lookup_insert_eq; eauto |].
    rewrite lookup_insert_ne by congruence. apply H1.
  - destruct (decide ((x0, y0) = (x, y))) as [[= -> ->]|Hne]; [auto |].
    rewrite Hrow by exact Hne. intros H. left. apply H2, H.
  - destruct (decide ((x0, y0) = (x, y))) as [[= -> ->]|Hne];
      [rewrite Hnew_row; eauto |].
    rewrite Hrow by exact Hne. intros [H|[-> ->]]; [apply H2, H | congruence].
  - unfold cell in H.
    destruct (decide ((x0, y0) = (x, y))) as [[= -> ->]|Hne].
    + rewrite Hnew_row, lookup_empty in H. discriminate.
    + rewrite Hrow in H by exact Hne. apply (H3 x0 y0 z b) in H. tauto.
  - unfold cell in H.
    destruct (decide ((x0, y0) = (x, y))) as [[= -> ->]|Hne].
    + rewrite Hnew_row, lookup_empty in H. discriminate.
    + rewrite Hrow in H by exact Hne. apply (H3 x0 y0 z b) in H. tauto.
  - intros Hb. unfold cell.
    destruct (decide ((x0, y0) = (x, y))) as [[= -> ->]|Hne].
    + exfalso. apply (H3 x y z b) in Hb. unfold cell in Hb.
      rewrite Hold_row in Hb. discriminate.
    + rewrite Hrow by exact Hne. apply (H3 x0 y0 z b). exact Hb.
Qed.

Lemma building_cell Dp Dr Dc (g : Grid) x y z :
  building Dp Dr Dc g -> Dr x y ->
  building Dp Dr (fun x' y' z' => Dc x' y' z' \/ (x', y', z') = (x, y, z))
    (setCell g x y z Air).
Proof.
  intros (H1 & H2 & H3) Hr. apply H2 in Hr. repeat split.
  - intros H. apply H1. apply plane_setCell in H. exact H.
  - intros H. apply plane_setCell. apply H1, H.
  - intros H. apply H2. apply row_setCell in H. exact H.
  - intros H. apply row_setCell. apply H2, H.
  - destruct (decide ((x0, y0, z0) = (x, y, z))) as [[= -> -> ->]|Hne].
    + rewrite cell_setCell_eq in H by exact Hr. congruence.
    + rewrite cell_setCell_ne in H by exact Hne. apply H3 in H. tauto.
  - destruct (decide ((x0, y0, z0) = (x, y, z))) as [[= -> -> ->]|Hne].
    + right. reflexivity.
    + rewrite cell_setCell_ne in H by exact Hne. apply H3 in H. tauto.
  - intros [-> Hd].
    destruct (decide ((x0, y0, z0) = (x, y, z))) as [[= -> -> ->]|Hne].
    + apply cell_setCell_eq. exact Hr.
    + rewrite cell_setCell_ne by exact Hne. apply H3.
      destruct Hd as [Hd|Hd]; [auto | congruence].
Qed.

End Allocator.

Section AllocatorRun.
Context {O : Oracle}.

Lemma building_cell_at Dp Dr Dc (g : Grid) x y z :
  building Dp Dr Dc g -> Dr x y ->
  building Dp Dr
    (fun x' y' z' => Dc x' y' z' \/ (x' = x /\ y' = y /\ z' = z))
    (setCell g x y z Air).
Proof.
  intros Hb Hr.
  eapply building_ext; [| | | apply (building_cell _ _ _ g x y z Hb Hr)];
    try (intros; reflexivity).
  intros x' y' z'. split.
  - intros [H|[= -> -> ->]]; auto.
  - intros [H|(-> & -> & ->)]; auto.
Qed.

Lemma building_empty :
  building (fun _ => False) (fun _ _ => False) (fun _ _ _ => False) (∅ : Grid).
Proof.
  repeat split; try tauto.
  - rewrite lookup_empty. intros [? ?]; discriminate.
  - unfold row. rewrite lookup_empty. intros [? ?]; discriminate.
  - unfold cell, row in H. rewrite lookup_empty in H. discriminate.
  - unfold cell, row in H. rewrite lookup_empty in H. discriminate.
Qed.

Lemma wp_newArray n Q E s : arraySize n -> Q tt s -> wp (newArray n) Q E s.
Proof.
  intros Hn HQ. unfold newArray. unfold arraySize in Hn.
  assert (H1 : (n <? 0) = false) by lia.
  assert (H2 : (maxArrayLength <? n) = false) by lia.
  rewrite H1, H2. exact HQ.
Qed.

Lemma wp_initEmptyChunk sz s :
  arraySize (width sz) -> arraySize (height sz) ->
  wp (initEmptyChunk sz)
    (fun _ s' =>
       rng s' = rng s /\
       building (fun x => 0 <= x < width sz)
         (fun x y => 0 <= x < width sz /\ 0 <= y < height sz)
         (inVolume sz) (grid s'))
    (fun _ => False) s.
Proof.
  intros HW HH. unfold initEmptyChunk.
  apply wp_bind, wp_newArray; [exact HW |].
  apply wp_bind. unfold wp at 1, setGrid.
  eapply wp_mono;
    [apply (wp_forZ (fun k s' =>
       rng s' = rng s /\
       building (fun x => 0 <= x < k)
         (fun x y => 0 <= x < k /\ 0 <= y < height sz)
         (fun x y z => 0 <= x < k /\ 0 <= y < height sz /\ 0 <= z < width sz)
         (grid s')))
    | | intros ? HE; exact HE].
  - split; [reflexivity |]. simpl.
    eapply building_ext; [| | | apply building_empty]; intros; lia.
  - intros x s1 Hx [Hrng Hb].
    apply wp_bind, wp_newArray; [exact HH |].
    apply wp_bind. unfold allocPlane. apply wp_bind. unfold wp at 1, getGrid.
    unfold wp at 1, setGrid.
    eapply wp_mono;
      [apply (wp_forZ (fun j s' =>
         rng s' = rng s /\
         building (fun x' => 0 <= x' < x + 1)
           (fun x' y' => (0 <= x' < x /\ 0 <= y' < height sz)
                         \/ (x' = x /\ 0 <= y' < j))
           (fun x' y' z' =>
              (0 <= x' < x /\ 0 <= y' < height sz /\ 0 <= z' < width sz)
              \/ (x' = x /\ 0 <= y' < j /\ 0 <= z' < width sz))
           (grid s')))
      | | intros ? HE; exact HE].
    + split; [exact Hrng |]. simpl.
      eapply building_ext;
        [| | | apply (building_plane _ _ _ (grid s1) x Hb); lia];
        intros; simpl; lia.
    + intros y s2 Hy [Hrng2 Hb2].
      apply wp_bind, wp_newArray; [exact HW |].
      apply wp_bind. unfold allocRow. apply wp_bind. unfold wp at 1, getGrid.
      destruct (proj2 (proj1 Hb2 x)) as [p Hp]; [lia |]. rewrite Hp.
      unfold wp at 1, setGrid.
      eapply wp_mono;
        [apply (wp_forZ (fun k s' =>
           rng s' = rng s /\
           building (fun x' => 0 <= x' < x + 1)
             (fun x' y' => (0 <= x' < x /\ 0 <= y' < height sz)
                           \/ (x' = x /\ 0 <= y' < y + 1))
             (fun x' y' z' =>
                (0 <= x' < x /\ 0 <= y' < height sz /\ 0 <= z' < width sz)
                \/ (x' = x /\ 0 <= y' < y /\ 0 <= z' < width sz)
                \/ (x' = x /\ y' = y /\ 0 <= z' < k))
             (grid s')))
        | | intros ? HE; exact HE].
      * split; [exact Hrng2 |]. simpl.
        eapply building_ext;
          [| | | apply (building_row _ _ _ (grid s2) p x y Hb2 Hp); lia];
          intros; simpl; lia.
      * intros z s3 Hz [Hrng3 Hb3].
        apply wp_writeBlock.
        -- intros _. simpl. split; [exact Hrng3 |].
           eapply building_ext;
             [| | | apply (building_cell_at _ _ _ (grid s3) x y z Hb3); lia];
             intros; simpl; lia.
        -- intros Hnone. destruct (proj2 (proj1 (proj2 Hb3) x y)) as [r Hr];
             [lia | congruence].
      * intros [] s3 [Hrng3 Hb3]. simpl. split; [exact Hrng3 |].
        eapply building_ext; [| | | exact Hb3]; intros; simpl; lia.
    + intros [] s2 [Hrng2 Hb2]. simpl. split; [exact Hrng2 |].
      eapply building_ext; [| | | exact Hb2]; intros; simpl; lia.
  - intros [] s1 [Hrng1 Hb1]. simpl. split; [exact Hrng1 |].
    eapply building_ext; [| | | exact Hb1]; unfold inVolume; intros; simpl; lia.
Qed.

End AllocatorRun.

(** ** Tree stage: runs that stay inside the grid *)

Section TreeSafety.
Context {O : Oracle}.

Lemma grows_refl g : grows g g.
Proof. repeat split; auto. Qed.

Lemma grows_trans g1 g2 g3 : grows g1 g2 -> grows g2 g3 -> grows g1 g3.
Proof.
  intros (A1 & A2 & A3 & A4) (B1 & B2 & B3 & B4).
  split; [intros x; rewrite B1; apply A1 |].
  split; [intros x y; rewrite B2; apply A2 |].
  split; [intros x y z; rewrite B3; apply A3 |].
  intros x y z H. apply A4, B4, H.
Qed.

Lemma grows_setCell (g : Grid) x y z v :
  is_Some (cell g x y z) -> v <> Grass -> grows g (setCell g x y z v).
Proof.
  intros Hc Hv. pose proof (cell_row g x y z Hc) as Hr.
  split; [intros x'; apply plane_setCell |].
  split; [intros x' y'; apply row_setCell |].
  split; intros x' y' z';
    (destruct (decide ((x', y', z') = (x, y, z))) as [[= -> -> ->]|Hne];
     [rewrite cell_setCell_eq by exact Hr
     | rewrite cell_setCell_ne by exact Hne]).
  - split; [intros _; exact Hc | eauto].
  - reflexivity.
  - congruence.
  - auto.
Qed.

Lemma grows_populated sz g g' : grows g g' -> populated sz g -> populated sz g'.
Proof.
  intros (_ & _ & H3 & _) Hp x y z Hx Hy Hz. apply H3. apply Hp; assumption.
Qed.

Lemma grows_shaped sz g g' : grows g g' -> shaped sz g -> shaped sz g'.
Proof.
  intros (H1 & H2 & H3 & _) (S1 & S2 & S3).
  split; [intros x; rewrite H1; apply S1 |].
  split; [intros x y; rewrite H2; apply S2 |].
  intros x y z. rewrite H3. apply S3.
Qed.

End TreeSafety.

Section TreeSafetyRun.
Context {O : Oracle} `{!OracleRange O}.

Lemma wp_write_grows g0 st x y z v s :
  grows g0 (grid s) -> is_Some (cell (grid s) x y z) -> v <> Grass ->
  wp (writeBlock st x y z v) (fun _ s' => grows g0 (grid s'))
    (fun _ => False) s.
Proof.
  intros Hg Hc Hv. apply wp_writeBlock.
  - intros _. simpl. eapply grows_trans; [exact Hg |].
    apply grows_setCell; assumption.
  - intros Hn. apply cell_row in Hc. destruct Hc as [r Hr]. congruence.
Qed.

Lemma wp_generateCanopy_safe sz params g0 baseX topY baseZ R s :
  populated sz g0 -> grows g0 (grid s) ->
  R <= baseX < width sz - R -> R <= baseZ < width sz - R ->
  R <= topY < height sz - R ->
  wp (generateCanopy params baseX topY baseZ R)
    (fun _ s' => grows g0 (grid s')) (fun _ => False) s.
Proof.
  intros Hp Hg HX HZ HY. unfold generateCanopy.
  apply wp_forZ_inv; [exact Hg |]. intros x s1 Hx H1.
  apply wp_forZ_inv; [exact H1 |]. intros y s2 Hy H2.
  apply wp_forZ_inv; [exact H2 |]. intros z s3 Hz H3.
  unfold canopyCell. destruct (_ >? _); [apply wp_ret; exact H3 |].
  assert (Hc : is_Some (cell (grid s3) (baseX + x) (topY + y) (baseZ + z))).
  { apply (grows_populated sz _ _ H3 Hp); lia. }
  apply wp_bind, wp_readBlock.
  - intros _.
    destruct (negb (strictEq _ Air)); [apply wp_ret; exact H3 |].
    apply wp_bind, wp_random. intros u r _.
    destruct (Qltb _ u); [| apply wp_ret; exact H3].
    apply wp_write_grows; [exact H3 | exact Hc | discriminate].
  - intros Hn. apply cell_row in Hc. destruct Hc as [r Hr]. congruence.
Qed.

Lemma wp_plantTree_safe simplex sz params chunkPos g0 baseX y baseZ s :
  treesFit simplex sz params chunkPos g0 ->
  populated sz g0 -> grows g0 (grid s) ->
  max (size (canopy (trees params))) <= baseX
    < width sz - max (size (canopy (trees params))) ->
  max (size (canopy (trees params))) <= baseZ
    < width sz - max (size (canopy (trees params))) ->
  treeSkipped simplex params chunkPos baseX baseZ = false ->
  0 <= y < height sz ->
  cell (grid s) baseX y baseZ = Some Grass ->
  wp (plantTree params baseX y baseZ)
    (fun _ s' => grows g0 (grid s')) (fun _ => False) s.
Proof.
  intros Hfit Hp Hg HX HZ Hskip HY Hgrass.
  pose proof (tf_canopy _ _ _ _ _ Hfit) as Hc.
  pose proof (tf_trunk _ _ _ _ _ Hfit) as Ht.
  assert (Hy : treeFitsAt sz params y).
  { apply (tf_fit _ _ _ _ _ Hfit baseX y baseZ HX HZ Hskip HY).
    destruct Hg as (_ & _ & _ & H4). apply H4. exact Hgrass. }
  destruct Hy as [Hb Hy].
  unfold plantTree.
  apply wp_bind, wp_drawRange; [lia |]. intros trunk rs Htrunk.
  apply wp_bind.
  eapply wp_mono;
    [apply (wp_forZ_inv (fun s' => grows g0 (grid s')))
    | | intros ? HE; exact HE].
  - exact Hg.
  - intros i s1 Hi H1. apply wp_write_grows; [exact H1 | | discriminate].
    apply (grows_populated sz _ _ H1 Hp); lia.
  - intros [] s1 H1. simpl.
    apply wp_bind, wp_drawRange; [lia |]. intros R rs' HR.
    apply (wp_generateCanopy_safe sz); simpl; try assumption; lia.
Qed.

Lemma wp_generateTrees_safe sz params chunkPos s :
  treesFit (fst (simplex_new (rng s))) sz params chunkPos (grid s) ->
  populated sz (grid s) ->
  wp (generateTrees sz params chunkPos)
    (fun _ s' => grows (grid s) (grid s')) (fun _ => False) s.
Proof.
  intros Hfit Hp. pose proof (tf_canopy _ _ _ _ _ Hfit) as Hc.
  unfold generateTrees. apply wp_bind, wp_newSimplexNoise.
  unfold treeColumns.
  apply wp_forZ_inv; [apply grows_refl |]. intros baseX s1 HX H1.
  apply wp_forZ_inv; [exact H1 |]. intros baseZ s2 HZ H2.
  unfold treeColumn.
  destruct (treeSkipped _ _ _ _ _) eqn:Hskip; [apply wp_ret; exact H2 |].
  apply wp_forDown_inv; [exact H2 |]. intros y s3 Hy H3.
  unfold scanCell.
  assert (Hcell : is_Some (cell (grid s3) baseX y baseZ)).
  { apply (grows_populated sz _ _ H3 Hp); lia. }
  apply wp_bind, wp_readBlock.
  - intros _.
    destruct (strictEq (cell (grid s3) baseX y baseZ) Grass) eqn:Hg;
      simpl; [| apply wp_ret; exact H3].
    apply strictEq_true in Hg.
    apply (wp_plantTree_safe (fst (simplex_new (rng s))) sz params chunkPos);
      try assumption; lia.
  - intros Hn. apply cell_row in Hcell. destruct Hcell as [r Hr]. congruence.
Qed.

End TreeSafetyRun.

(** ** The first three stages of [generateChunk] *)

Section Pipeline.
Context {O : Oracle}.

Lemma building_shaped sz g :
  building (fun x => 0 <= x < width sz)
    (fun x y => 0 <= x < width sz /\ 0 <= y < height sz) (inVolume sz) g ->
  shaped sz g /\ forall x y z b, cell g x y z = Some b -> b = Air.
Proof.
  intros (H1 & H2 & H3). split; [split; [exact H1 | split; [exact H2 |]] |].
  - intros x y z. split.
    + intros [b Hb]. apply H3 in Hb. tauto.
    + intros Hv. exists Air. apply H3. auto.
  - intros x y z b Hb. apply H3 in Hb. tauto.
Qed.

Lemma shaped_populated sz g : shaped sz g -> populated sz g.
Proof.
  intros (_ & _ & H3) x y z Hx Hy Hz. apply H3. unfold inVolume. auto.
Qed.

Lemma mapsCells_shaped sz f s s' :
  mapsCells (inVolume sz) f s s' ->
  (forall x y z b, is_Some (f x y z (Some b))) ->
  shaped sz (grid s) -> shaped sz (grid s').
Proof.
  intros [_ M2 M3 M4 M5] Hf (S1 & S2 & S3).
  split; [intros x; rewrite M2; apply S1 |].
  split; [intros x y; rewrite M3; apply S2 |].
  intros x y z. split.
  - intros Hs. destruct (decide (0 <= x < width sz /\ 0 <= y < height sz
                                  /\ 0 <= z < width sz)) as [Hv|Hv];
      [exact Hv |].
    rewrite M5 in Hs by exact Hv. apply S3, Hs.
  - intros Hv. rewrite M4 by exact Hv.
    destruct (proj2 (S3 x y z) Hv) as [b Hb]. rewrite Hb. apply Hf.
Qed.

Lemma stampCells_stamped simplex chunkPos entries x y z b0 :
  stamped entries b0 ->
  exists b,
    stampCells simplex chunkPos entries x y z (Some b0) = Some b /\
    stamped entries b.
Proof.
  intros Hb0. rewrite stampCells_last. unfold lastExceeding.
  destruct (last _) as [config|] eqn:Hl; [| eauto].
  exists (id config). split; [reflexivity |]. right.
  apply last_Some_elem_of in Hl. apply list_elem_of_filter in Hl as [_ Hin].
  apply list_elem_of_fmap in Hin as (e & -> & Hin). eauto.
Qed.

Lemma terrainValue_is_Some h nS nB y b :
  is_Some (terrainValue h nS nB y (Some b)).
Proof.
  destruct h as [h|]; simpl; [| eauto]. unfold terrainValueAt.
  destruct (y <? h); [| destruct (y =? h); eauto].
  destruct (ofZ y <? nB)%float; [eauto |].
  destruct (ofZ y <? ofZ h - nS)%float; [| eauto].
  destruct (strictEq _ _); eauto.
Qed.


(** The first four statements of [generateChunk] return for sizes that
    [new Array] accepts, whatever the heap before the call; the tree stage
    then runs on a grid of the configured shape whose cells are
    [groundCell], with the third noise field of the new generator. *)
Lemma chunk_before_trees entries sz params x z s :
  arraySize (width sz) -> arraySize (height sz) ->
  let chunkPos := mkVector3 x 0 z in
  exists s3,
    generateChunk entries sz params x z s
    = generateTrees sz params chunkPos s3 /\
    fst (simplex_new (rng s3)) = treeNoiseField params /\
    shaped sz (grid s3) /\
    forall x' y' z', inVolume sz x' y' z' ->
      cell (grid s3) x' y' z' = groundCell entries sz params chunkPos x' y' z'
      /\ exists b0,
           stampedOverAir params chunkPos entries x' y' z' = Some b0 /\
           stamped entries b0.
Proof.
  intros HW HH chunkPos. unfold generateChunk.
  pose proof (wp_initEmptyChunk sz s HW HH) as H1.
  apply wp_ok in H1 as ([] & s1 & Hrun1 & _ & Hb1).
  apply building_shaped in Hb1 as [Hs1 Hair1].
  set (s1' := mkState (grid s1) (rng_new (seed params)) (trace s1)).
  pose proof (wp_generateResources entries sz chunkPos s1'
                (populated_rowsOk _ _ (shaped_populated _ _ Hs1))) as H2.
  apply wp_ok in H2 as ([] & s2 & Hrun2 & Hm2).
  assert (Hs2 : shaped sz (grid s2)).
  { eapply mapsCells_shaped; [exact Hm2 | | exact Hs1].
    intros x' y' z' b. rewrite stampCells_last.
    destruct (lastExceeding _ _ _ _ _ _); eauto. }
  pose proof (wp_generateTerrain sz params chunkPos s2
                (populated_rowsOk _ _ (shaped_populated _ _ Hs2))) as H3.
  apply wp_ok in H3 as ([] & s3 & Hrun3 & Hm3).
  assert (Hrng2 : rng s2 = snd (simplex_new (rng_new (seed params)))).
  { rewrite (mc_rng _ _ _ _ Hm2). reflexivity. }
  exists s3. split; [| split; [| split]].
  - unfold bind. fold chunkPos. rewrite Hrun1. unfold newRNG. fold s1'.
    rewrite Hrun2, Hrun3. reflexivity.
  - rewrite (mc_rng _ _ _ _ Hm3). simpl. rewrite Hrng2. reflexivity.
  - eapply mapsCells_shaped; [exact Hm3 | | exact Hs2].
    intros x' y' z' b. apply terrainValue_is_Some.
  - intros x' y' z' Hv.
    destruct (proj2 (proj2 (proj2 Hs1) x' y' z') Hv) as [b1 Hc1].
    pose proof (Hair1 _ _ _ _ Hc1) as ->.
    destruct (stampCells_stamped (resourceNoise params) chunkPos
                entries x' y' z' Air) as (b0 & Hst & Hb0); [left; reflexivity |].
    split; [| exists b0; split; assumption].
    rewrite (mc_in _ _ _ _ Hm3 x' y' z' Hv). simpl.
    rewrite (mc_in _ _ _ _ Hm2 x' y' z' Hv). simpl.
    rewrite Hc1, Hrng2. reflexivity.
Qed.

End Pipeline.

(** ** Independence of the heap before the call *)

Section Independence.
Context {O : Oracle}.

Lemma sameEnd_bind {A B} (R R' : State -> State -> Prop) (m : M A)
    (k : A -> M B) s1 s2 :
  sameEnd R (m s1) (m s2) ->
  (forall a t1 t2, R t1 t2 -> sameEnd R' (k a t1) (k a t2)) ->
  sameEnd R' (bind m k s1) (bind m k s2).
Proof.
  intros Hm Hk. unfold bind.
  destruct (m s1) as [a1 t1|e1 t1], (m s2) as [a2 t2|e2 t2];
    try contradiction.
  - destruct Hm as [-> Ht]. apply Hk, Ht.
  - exact Hm.
Qed.

Lemma respects_ret {A} b (a : A) : respects b (ret a).
Proof. intros s1 s2 Hs. simpl. auto. Qed.

Lemma respects_throw {A} b e : respects b (throw e : M A).
Proof. intros s1 s2 Hs. reflexivity. Qed.

Lemma respects_bind {A B} b (m : M A) (k : A -> M B) :
  respects b m -> (forall a, respects b (k a)) -> respects b (bind m k).
Proof.
  intros Hm Hk s1 s2 Hs.
  apply (sameEnd_bind (agree b) (agree b)); [apply Hm, Hs |].
  intros a t1 t2 Ht. apply Hk, Ht.
Qed.

Lemma respects_foldM b (body : Z -> M unit) l :
  (forall k, respects b (body k)) -> respects b (foldM body l).
Proof.
  intros Hb. induction l as [|k l IH]; [apply respects_ret |].
  simpl. apply respects_bind; [apply Hb | intros _; exact IH].
Qed.

Lemma respects_forZ b lo hi (body : Z -> M unit) :
  (forall k, respects b (body k)) -> respects b (forZ lo hi body).
Proof. apply respects_foldM. Qed.

Lemma respects_forDown b hi lo (body : Z -> M unit) :
  (forall k, respects b (body k)) -> respects b (forDown hi lo body).
Proof. apply respects_foldM. Qed.

Lemma respects_readBlock b x y z : respects b (readBlock x y z).
Proof.
  intros s1 s2 [Hg Hr]. unfold readBlock. rewrite Hg.
  destruct (row (grid s2) x y); [| reflexivity].
  split; [reflexivity | split; assumption].
Qed.

Lemma respects_writeBlock b st x y z v : respects b (writeBlock st x y z v).
Proof.
  intros s1 s2 [Hg Hr]. unfold writeBlock. rewrite Hg.
  destruct (row (grid s2) x y); [| reflexivity].
  split; [reflexivity | split; simpl; [congruence | assumption]].
Qed.

Lemma respects_random : respects true random.
Proof.
  intros s1 s2 [Hg Hr]. unfold random. rewrite (Hr eq_refl).
  destruct (rng_random (rng s2)) as [u r].
  split; [reflexivity | split; [exact Hg | reflexivity]].
Qed.

Lemma respects_newSimplexNoise : respects true newSimplexNoise.
Proof.
  intros s1 s2 [Hg Hr]. unfold newSimplexNoise. rewrite (Hr eq_refl).
  destruct (simplex_new (rng s2)) as [sx r].
  split; [reflexivity | split; [exact Hg | reflexivity]].
Qed.

Lemma respects_newArray b n : respects b (newArray n).
Proof.
  unfold newArray. destruct (_ || _); [apply respects_throw | apply respects_ret].
Qed.

Lemma respects_setGrid b g : respects b (setGrid g).
Proof.
  intros s1 s2 [Hg Hr]. simpl. split; [reflexivity | split; auto].
Qed.

Lemma respects_getGrid b : respects b getGrid.
Proof. intros s1 s2 [Hg Hr]. simpl. split; [exact Hg | split; auto]. Qed.

Lemma respects_drawRange r : respects true (drawRange r).
Proof.
  apply respects_bind; [apply respects_random | intros u; apply respects_ret].
Qed.

(** The allocator, once it has replaced the grid. *)
Lemma respects_allocate b sz :
  respects b
    (forZ 0 (width sz) (fun x =>
       bind (newArray (height sz)) (fun _ =>
       bind (allocPlane x) (fun _ =>
       forZ 0 (height sz) (fun y =>
         bind (newArray (width sz)) (fun _ =>
         bind (allocRow x y) (fun _ =>
         forZ 0 (width sz) (fun z =>
           writeBlock ByAllocator x y z Air)))))))).
Proof.
  apply respects_forZ. intros x.
  apply respects_bind; [apply respects_newArray | intros _].
  apply respects_bind.
  { apply respects_bind; [apply respects_getGrid | intros g].
    apply respects_setGrid. }
  intros _. apply respects_forZ. intros y.
  apply respects_bind; [apply respects_newArray | intros _].
  apply respects_bind.
  { apply respects_bind; [apply respects_getGrid | intros g].
    destruct (g !! x); [apply respects_setGrid | apply respects_throw]. }
  intros _. apply respects_forZ. intros z. apply respects_writeBlock.
Qed.

Lemma respects_generateResources entries sz chunkPos :
  respects true (generateResources entries sz chunkPos).
Proof.
  apply respects_bind; [apply respects_newSimplexNoise | intros simplex].
  induction entries as [|[name config] rest IH]; [apply respects_ret |].
  simpl. apply respects_bind; [| intros _; exact IH].
  apply respects_forZ. intros x. apply respects_forZ. intros y.
  apply respects_forZ. intros z.
  destruct (resourcePasses _ _ _ _ _ _);
    [apply respects_writeBlock | apply respects_ret].
Qed.

Lemma respects_generateTerrain sz params chunkPos :
  respects true (generateTerrain sz params chunkPos).
Proof.
  apply respects_bind; [apply respects_newSimplexNoise | intros simplex].
  apply respects_forZ. intros x. apply respects_forZ. intros z.
  apply respects_forZ. intros y. unfold terrainCell.
  destruct (columnHeight _ _ _ _ _ _) as [h|]; [| apply respects_ret].
  unfold terrainCellAt.
  destruct (y <? h).
  - destruct (_ <? _)%float; [apply respects_writeBlock |].
    destruct (_ <? _)%float; [| apply respects_writeBlock].
    apply respects_bind; [apply respects_readBlock | intros b].
    destruct (strictEq b Air); [apply respects_writeBlock | apply respects_ret].
  - destruct (y =? h); [apply respects_writeBlock |].
    destruct (y >? h); [apply respects_writeBlock | apply respects_ret].
Qed.

Lemma respects_generateTrees sz params chunkPos :
  respects true (generateTrees sz params chunkPos).
Proof.
  apply respects_bind; [apply respects_newSimplexNoise | intros simplex].
  apply respects_forZ. intros baseX. apply respects_forZ. intros baseZ.
  unfold treeColumn. destruct (treeSkipped _ _ _ _ _); [apply respects_ret |].
  apply respects_forDown. intros y. unfold scanCell.
  apply respects_bind; [apply respects_readBlock | intros b].
  destruct (negb _); [apply respects_ret |].
  unfold plantTree.
  apply respects_bind; [apply respects_drawRange | intros trunk].
  apply respects_bind.
  { apply respects_forZ. intros i. apply respects_writeBlock. }
  intros _.
  apply respects_bind; [apply respects_drawRange | intros R].
  apply respects_forZ. intros x. apply respects_forZ. intros y'.
  apply respects_forZ. intros z. unfold canopyCell.
  destruct (_ >? _); [apply respects_ret |].
  apply respects_bind; [apply respects_readBlock | intros b'].
  destruct (negb _); [apply respects_ret |].
  apply respects_bind; [apply respects_random | intros u].
  destruct (Qltb _ u); [apply respects_writeBlock | apply respects_ret].
Qed.

(** [generateChunk] from two heaps: both runs throw the same error, or
    both return, the same grid and generator. *)
Lemma generateChunk_fresh entries sz params x z s1 s2 :
  sameEnd (agree true)
    (generateChunk entries sz params x z s1)
    (generateChunk entries sz params x z s2).
Proof.
  unfold generateChunk.
  apply (sameEnd_bind (agree false)).
  { unfold initEmptyChunk.
    apply (sameEnd_bind (fun _ _ => True)).
    { unfold newArray. destruct (_ || _); simpl; auto. }
    intros [] t1 t2 _.
    apply (sameEnd_bind (agree false)).
    { simpl. split; [reflexivity |]. split; [reflexivity | discriminate]. }
    intros [] u1 u2 Hu. apply respects_allocate, Hu. }
  intros [] t1 t2 [Hg _].
  apply (sameEnd_bind (agree true)).
  { simpl. split; [reflexivity |]. split; [exact Hg | reflexivity]. }
  intros [] u1 u2 Hu.
  apply (respects_bind true); [apply respects_generateResources | intros _ |
                               exact Hu].
  apply respects_bind; [apply respects_generateTerrain | intros _].
  apply respects_generateTrees.
Qed.

End Independence.

(** ** Claims about the whole chunk *)

Section ChunkClaims.
Context {O : Oracle}.

(** C1, as amended.  [generateChunk] returns a grid whose three levels of
    keys are exactly the configured ranges and whose every cell holds a
    block, whatever the heap before the call, when draws lie in [0,1],
    width and height are positive and at most 2^32 - 1 (the largest length
    of an array), 0 <= canopy.size.min <= canopy.size.max,
    0 <= trunkHeight.min <= trunkHeight.max, and every tree that can be
    planted stays inside the grid vertically: for every candidate column
    that the frequency test does not skip and every Grass tile (x, y, z)
    that the terrain stage leaves in it,
    canopy.size.max <= y + 1 + trunkHeight.min and
    y + 2 + trunkHeight.max + canopy.size.max <= height. *)
Theorem generateChunk_returns_shaped `{!OracleRange O} (entries : OreEntries)
    (sz : WorldSize) (params : WorldParams) (x z : float) (s : State) :
  0 < width sz <= maxArrayLength -> 0 < height sz <= maxArrayLength ->
  0 <= min (size (canopy (trees params)))
    <= max (size (canopy (trees params))) ->
  0 <= min (trunkHeight (trees params))
    <= max (trunkHeight (trees params)) ->
  (forall baseX y baseZ,
     max (size (canopy (trees params))) <= baseX
       < width sz - max (size (canopy (trees params))) ->
     max (size (canopy (trees params))) <= baseZ
       < width sz - max (size (canopy (trees params))) ->
     treeSkipped (treeNoiseField params) params (mkVector3 x 0 z)
       baseX baseZ = false ->
     0 <= y < height sz ->
     groundCell entries sz params (mkVector3 x 0 z) baseX y baseZ
     = Some Grass ->
     treeFitsAt sz params y) ->
  exists s',
    generateChunk entries sz params x z s = Ok tt s' /\
    shaped sz (grid s') /\ populated sz (grid s').
Proof.
  intros HW HH Hc Ht Hfits.
  destruct (chunk_before_trees entries sz params x z s)
    as (s3 & Hrun & Hsx & Hs3 & Hcells);
    [unfold arraySize; lia | unfold arraySize; lia |].
  assert (Hfit : treesFit (fst (simplex_new (rng s3))) sz params
                   (mkVector3 x 0 z) (grid s3)).
  { split; try assumption.
    intros bx y bz HX HZ Hskip HY Hgrass. rewrite Hsx in Hskip.
    apply (Hfits bx y bz HX HZ Hskip HY).
    rewrite <- (proj1 (Hcells bx y bz ltac:(unfold inVolume; lia))).
    exact Hgrass. }
  pose proof (wp_generateTrees_safe sz params (mkVector3 x 0 z) s3 Hfit
                (shaped_populated _ _ Hs3)) as H4.
  apply wp_ok in H4 as ([] & s4 & Hrun4 & Hg).
  exists s4. split; [rewrite Hrun; exact Hrun4 |].
  pose proof (grows_shaped sz _ _ Hg Hs3) as Hs4.
  split; [exact Hs4 | apply shaped_populated, Hs4].
Qed.

(** C5.  Two calls of [generateChunk] with the same seed, world size,
    world parameters, resource configuration and origin end the same way
    whatever heaps they start from (the grid, the generator state and the
    assignments that earlier calls have left): both throw the same error,
    or both return and the two grids are equal, key for key and cell for
    cell.  Each call allocates its own grid and seeds its own generator;
    nothing of the heap before the call reaches the result. *)
Theorem generateChunk_deterministic (entries : OreEntries) (sz : WorldSize)
    (params : WorldParams) (x z : float) (s1 s2 : State) :
  let o1 := generateChunk entries sz params x z s1 in
  let o2 := generateChunk entries sz params x z s2 in
  thrown o1 = thrown o2 /\
  (thrown o1 = None ->
   grid (final o1) = grid (final o2) /\
   forall x' y' z',
     cell (grid (final o1)) x' y' z' = cell (grid (final o2)) x' y' z').
Proof.
  intros o1 o2.
  pose proof (generateChunk_fresh entries sz params x z s1 s2) as H.
  fold o1 o2 in H. unfold sameEnd in H.
  destruct o1 as [[] t1|e1 t1], o2 as [[] t2|e2 t2]; try contradiction;
    simpl.
  - split; [reflexivity |]. intros _. destruct H as [_ [Hg _]].
    split; [exact Hg |]. intros x' y' z'. rewrite Hg. reflexivity.
  - split; [congruence | discriminate].
Qed.




End ChunkClaims.

Section FrequencyZero.
Context {O : Oracle}.


End FrequencyZero.

(** ** Worked examples *)

#[local] Instance fixedOracle_range (u : Q) f2 f3 :
  (0 <= u <= 1)%Q -> OracleRange (fixedOracle u f2 f3).
Proof. intros Hu. split; intros; simpl; assumption. Qed.

#[local] Instance countingOracle_range : OracleRange countingOracle.
Proof.
  split. intros k. simpl.
  pose proof (Z.mod_pos_bound k 2 ltac:(lia)) as Hk.
  split; [change 0%Q with (inject_Z 0) | change 1%Q with (inject_Z 1)];
    rewrite <- Zle_Qle; lia.
Qed.

Lemma half_unit : (0 <= 1 # 2 <= 1)%Q.
Proof. split; discriminate. Qed.

Section Examples.
Context {O : Oracle}.

Lemma initEmptyChunk_populated sz s :
  arraySize (width sz) -> arraySize (height sz) ->
  populated sz (grid (final (initEmptyChunk sz s))).
Proof.
  intros HW HH. pose proof (wp_initEmptyChunk sz s HW HH) as H.
  apply wp_ok in H as ([] & s' & Hrun & _ & Hb). rewrite Hrun. simpl.
  apply shaped_populated. apply building_shaped in Hb. tauto.
Qed.

End Examples.

Lemma small_arraySize (n : Z) : 0 <= n <= 64 -> arraySize n.
Proof. unfold arraySize, maxArrayLength. lia. Qed.

(** *** Counterexamples *)

(** Against C1 as worded: the configuration is valid, the surface is at
    y = 6 of 8, the trunk of the first tree reaches y = 8 and the
    assignment to [input[1][8][1]] throws. *)
Lemma generateChunk_throws_counterexample : ~ always_returns_claim.
Proof.
  intros Hclaim.
  destruct (Hclaim exOracle (fixedOracle_range _ _ _ half_unit)
              exEntries (mkWorldSize 4 8) tallTreeParams 0%float 0%float
              (startState 0))
    as (s' & Hrun & _).
  - reflexivity.
  - reflexivity.
  - simpl. lia.
  - simpl. lia.
  - split; reflexivity.
  - repeat constructor.
  - vm_compute in Hrun. discriminate Hrun.
Qed.

Example generateChunk_throws_TypeError :
  thrown (generateChunk (O := exOracle) exEntries (mkWorldSize 4 8)
            tallTreeParams 0 0 (startState 0)) = Some TypeError.
Proof. vm_compute. reflexivity. Qed.

(** A tree can also leave the grid through the bottom: with the surface at
    y = 0, a trunk of height 0 and a canopy of radius 2 the canopy is
    centred at y = 1 and its lowest layer reads [input[2][-1][2]]. *)
Example generateChunk_canopy_below_throws :
  0 + 2 + max (trunkHeight (trees deepCanopyParams))
    + max (size (canopy (trees deepCanopyParams))) <= 16 /\
  thrown (generateChunk (O := exOracle) exEntries (mkWorldSize 5 16)
            deepCanopyParams 0 0 (startState 0)) = Some TypeError.
Proof. split; [simpl; lia | vm_compute; reflexivity]. Qed.

(** [new Array(4294967296)] is a RangeError: a height of 2^32 is rejected
    by the allocator. *)
Example generateChunk_huge_height_throws :
  thrown (generateChunk (O := exOracle) exEntries
            (mkWorldSize 1 4294967296) fittingParams 0 0 (startState 0))
  = Some RangeError.
Proof. vm_compute. reflexivity. Qed.

(** Against C3 as worded: the column's surface is at y = 0, so the cell at
    y = 0 is Grass although 0 < numBedrockBlocks = 1. *)
Lemma bedrock_floor_counterexample : ~ bedrock_floor_claim.
Proof.
  intros Hclaim.
  specialize (Hclaim exOracle (mkWorldSize 1 2) lowSurfaceParams exOrigin
                (emptyChunk (mkWorldSize 1 2)) 0 0 0).
  assert (Hcell : cell (grid (final (generateTerrain (O := exOracle)
                     (mkWorldSize 1 2) lowSurfaceParams exOrigin
                     (emptyChunk (mkWorldSize 1 2))))) 0 0 0 = Some Grass)
    by (vm_compute; reflexivity).
  rewrite Hcell in Hclaim.
  assert (Hbad : Some Grass = Some Bedrock); [| discriminate Hbad].
  apply Hclaim.
  - apply initEmptyChunk_populated; apply small_arraySize; simpl; lia.
  - unfold inVolume. simpl. lia.
  - reflexivity.
Qed.


(** The same happens below 1: for the largest double below one,
    n = 0.9999999999999999 * 0.5 + 0.5 rounds to 1. *)
Example generateChunk_frequency_zero_near_one :
  (0x1.fffffffffffffp-1 <? 1)%float = true /\
  (0x1.fffffffffffffp-1 * 0.5 + 0.5)%float = 1%float /\
  cell (grid (final (generateChunk (O := nearOneOracle) [] (mkWorldSize 1 8)
                       noTreeParams 0 0 (startState 0)))) 0 3 0
  = Some OakLog.
Proof. vm_compute. repeat split; reflexivity. Qed.

(** With a terrain scale of 0 every sample is taken at 0/0 = NaN; with a
    noise field that gives NaN there the surface height is NaN, the
    terrain stage writes nothing and the column holds no Grass. *)
Example generateTerrain_zero_scale :
  let s := emptyChunk (O := nanOracle) (mkWorldSize 1 4) in
  let o := generateTerrain (mkWorldSize 1 4) zeroScaleParams exOrigin s in
  columnHeight (fst (simplex_new (rng s))) (mkWorldSize 1 4)
    zeroScaleParams exOrigin 0 0 = None /\
  returns o = true /\
  trace (final o) = trace s /\
  forall y, 0 <= y < 4 -> cell (grid (final o)) 0 y 0 = Some Air.
Proof.
  intros s o.
  split; [vm_compute; reflexivity |]. split; [vm_compute; reflexivity |].
  split; [vm_compute; reflexivity |].
  intros y Hy.
  assert (Hy' : y = 0 \/ y = 1 \/ y = 2 \/ y = 3) by lia.
  destruct Hy' as [-> | [-> | [-> | ->]]]; vm_compute; reflexivity.
Qed.

(** *** The missing [break] of the scan for Grass (C6) *)

(** C6, at the failing input.  On a column with Grass at y = 3 and y = 0
    [generateTrees] returns having planted two trees in that column:
    trunks at y = 4 and y = 1, canopies centred at y = 5 and y = 2.  The
    loop of lines 149-192 keeps scanning after it has planted. *)
Example generateTrees_two_trees_in_column :
  let o :=
    generateTrees (mkWorldSize 1 8) oneBlockTrees exOrigin twoGrass in
  cell (grid twoGrass) 0 3 0 = Some Grass /\
  cell (grid twoGrass) 0 0 0 = Some Grass /\
  returns o = true /\
  w_stage <$> trace (final o)
    = [ByTrunk 0 4 0; ByCanopy 0 5 0 0; ByTrunk 0 1 0; ByCanopy 0 2 0 0] /\
  cell (grid (final o)) 0 4 0 = Some OakLog /\
  cell (grid (final o)) 0 1 0 = Some OakLog.
Proof. vm_compute. repeat split; reflexivity. Qed.

(** *** Instances of the theorems *)

#[local] Existing Instance exOracle.

Lemma generateResources_last_wins_witness :
  populated midSize (grid (emptyChunk (O := exOracle) midSize)) /\
  exists s' : @State exOracle,
    generateResources (O := exOracle) exEntries midSize exOrigin
      (emptyChunk midSize) = Ok tt s' /\
    forall x y z, inVolume midSize x y z ->
      cell (grid s') x y z =
        match lastExceeding
                (fst (simplex_new (rng (emptyChunk (O := exOracle) midSize))))
                exOrigin exEntries x y z
        with
        | Some config => Some (id config)
        | None => cell (grid (emptyChunk midSize)) x y z
        end.
Proof.
  split.
  - apply initEmptyChunk_populated; apply small_arraySize; simpl; lia.
  - apply (generateResources_last_wins (O := exOracle)).
    apply initEmptyChunk_populated; apply small_arraySize; simpl; lia.
Defined.

Lemma generateTerrain_column_profile_witness :
  0 < height midSize /\
  populated midSize (grid (emptyChunk (O := exOracle) midSize)) /\
  columnHeight (fst (simplex_new (rng (emptyChunk (O := exOracle) midSize))))
    midSize midParams exOrigin 1 0 = Some 2 /\
  exists s' : @State exOracle,
    generateTerrain (O := exOracle) midSize midParams exOrigin
      (emptyChunk midSize) = Ok tt s' /\
    (0 <= 2 < height midSize /\ columnProfile midSize (grid s') 1 0 2) /\
    forall h',
      0 <= h' < height midSize /\ columnProfile midSize (grid s') 1 0 h' ->
      h' = 2.
Proof.
  assert (Hp : populated midSize (grid (emptyChunk (O := exOracle) midSize))).
  { apply initEmptyChunk_populated; apply small_arraySize; simpl; lia. }
  split; [simpl; lia |]. split; [exact Hp |]. split; [reflexivity |].
  destruct (generateTerrain_column_profile (O := exOracle) midSize midParams
              exOrigin (emptyChunk midSize)) as (s' & Hrun & Hcols);
    [simpl; lia | exact Hp |].
  exists s'. split; [exact Hrun |].
  apply (Hcols 1 0 2); [simpl; lia | simpl; lia | reflexivity].
Defined.

Lemma generateTerrain_bedrock_below_surface_witness :
  populated midSize (grid (emptyChunk (O := exOracle) midSize)) /\
  exists s' : @State exOracle,
    generateTerrain (O := exOracle) midSize midParams exOrigin
      (emptyChunk midSize) = Ok tt s' /\
    forall x y z h, inVolume midSize x y z ->
      let simplex :=
        fst (simplex_new (rng (emptyChunk (O := exOracle) midSize))) in
      columnHeight simplex midSize midParams exOrigin x z = Some h ->
      y < h ->
      (ofZ y <? numBedrockBlocks simplex midParams x z)%float = true ->
      cell (grid s') x y z = Some Bedrock.
Proof.
  split.
  - apply initEmptyChunk_populated; apply small_arraySize; simpl; lia.
  - apply (generateTerrain_bedrock_below_surface (O := exOracle)).
    apply initEmptyChunk_populated; apply small_arraySize; simpl; lia.
Defined.

(** In the column (1, 0) of the 2 x 8 x 2 world the surface is at y = 4
    and the band is y = 1 and y = 2: coal survives at y = 2, and y = 3,
    outside the band, holds Dirt. *)
Lemma generateTerrain_resource_band_witness :
  populated bandSize (grid (emptyChunk (O := exOracle) bandSize)) /\
  exists s1 s2 : @State exOracle,
    generateResources (O := exOracle) exEntries bandSize exOrigin
      (emptyChunk bandSize) = Ok tt s1 /\
    generateTerrain bandSize midParams exOrigin s1 = Ok tt s2 /\
    columnHeight (fst (simplex_new (rng s1))) bandSize midParams exOrigin 1 0
    = Some 4 /\
    cell (grid s2) 1 2 0 = Some (Ore 0) /\
    is_resource (Ore 0) = true /\
    ((ofZ 2 <? numBedrockBlocks (fst (simplex_new (rng s1))) midParams 1 0)%float
     = false /\
     (ofZ 2 <? ofZ 4 - numSurfaceBlocks (fst (simplex_new (rng s1))) midParams
                         1 0)%float = true) /\
    cell (grid s2) 1 3 0 = Some Dirt.
Proof.
  assert (Hp : populated bandSize (grid (emptyChunk (O := exOracle) bandSize))).
  { apply initEmptyChunk_populated; apply small_arraySize; simpl; lia. }
  split; [exact Hp |].
  destruct (generateTerrain_resource_band (O := exOracle) exEntries bandSize
              midParams exOrigin (emptyChunk bandSize) Hp)
    as (s1 & s2 & Hrun1 & Hrun2 & Hband).
  assert (Hs2 : s2 = final (generateTerrain bandSize midParams exOrigin
                              (final (generateResources exEntries bandSize
                                        exOrigin (emptyChunk bandSize))))).
  { rewrite Hrun1. simpl. rewrite Hrun2. reflexivity. }
  assert (Hore : cell (grid s2) 1 2 0 = Some (Ore 0)).
  { rewrite Hs2. vm_compute. reflexivity. }
  assert (Hdirt : cell (grid s2) 1 3 0 = Some Dirt).
  { rewrite Hs2. vm_compute. reflexivity. }
  exists s1, s2. split; [exact Hrun1 |]. split; [exact Hrun2 |].
  split; [reflexivity |]. split; [exact Hore |]. split; [reflexivity |].
  split; [| exact Hdirt].
  apply (Hband 1 2 0 (Ore 0) 4);
    [unfold inVolume; simpl; lia | exact Hore | reflexivity | reflexivity].
Defined.

Lemma generateTrees_horizontal_in_bounds_witness :
  OracleRange exOracle /\
  0 <= min (size (canopy (trees oneBlockTrees)))
    <= max (size (canopy (trees oneBlockTrees))) /\
  exists t,
    trace (final (generateTrees (mkWorldSize 1 8) oneBlockTrees exOrigin
                    twoGrass)) = trace twoGrass ++ t /\
    Forall (horizontalOk (mkWorldSize 1 8)) t.
Proof.
  split; [exact (fixedOracle_range _ _ _ half_unit) |].
  split; [simpl; lia |].
  apply (generateTrees_horizontal_in_bounds (O := exOracle)
           (OracleRange0 := fixedOracle_range _ _ _ half_unit)).
  simpl. lia.
Defined.

Lemma generateChunk_returns_shaped_witness :
  OracleRange exOracle /\
  exists s' : @State exOracle,
    generateChunk (O := exOracle) exEntries (mkWorldSize 3 8) fittingParams
      0 0 (startState 0) = Ok tt s' /\
    shaped (mkWorldSize 3 8) (grid s') /\
    populated (mkWorldSize 3 8) (grid s').
Proof.
  split; [exact (fixedOracle_range _ _ _ half_unit) |].
  apply (generateChunk_returns_shaped (O := exOracle)
           (OracleRange0 := fixedOracle_range _ _ _ half_unit));
    try (unfold maxArrayLength; simpl; lia).
  intros baseX y baseZ HX HZ _ HY.
  simpl in HX, HZ, HY.
  assert (baseX = 1) as -> by lia. assert (baseZ = 1) as -> by lia.
  assert (Hy : y = 0 \/ y = 1 \/ y = 2 \/ y = 3 \/ y = 4 \/ y = 5 \/ y = 6
               \/ y = 7) by lia.
  destruct Hy as [-> | [-> | [-> | [-> | [-> | [-> | [-> | ->]]]]]]];
    vm_compute; intros Hg; try discriminate Hg;
    split; intros Hlt; discriminate Hlt.
Defined.

(** Two calls on the 3 x 8 x 3 world, one from an empty heap and one from
    a heap that an earlier call has used, with a generator that counts
    its draws. *)
Lemma generateChunk_deterministic_witness :
  let o1 := generateChunk (O := countingOracle) exEntries (mkWorldSize 3 8)
              fittingParams 0 0 (startState 0) in
  let o2 := generateChunk (O := countingOracle) exEntries (mkWorldSize 3 8)
              fittingParams 0 0 usedHeap in
  grid (startState (O := countingOracle) 0) <> grid usedHeap /\
  rng (startState (O := countingOracle) 0) <> rng usedHeap /\
  thrown o1 = None /\ thrown o2 = None /\
  grid (final o1) = grid (final o2) /\
  cell (grid (final o1)) 1 4 1 = Some OakLog /\
  cell (grid (final o2)) 1 4 1 = Some OakLog.
Proof.
  intros o1 o2.
  destruct (generateChunk_deterministic (O := countingOracle) exEntries
              (mkWorldSize 3 8) fittingParams 0 0 (startState 0) usedHeap)
    as [Hthrown Hgrid].
  fold o1 o2 in Hthrown, Hgrid.
  assert (H1 : thrown o1 = None) by (vm_compute; reflexivity).
  destruct (Hgrid H1) as [Hg Hcells].
  split; [vm_compute; discriminate |].
  split; [vm_compute; discriminate |].
  split; [exact H1 |]. split; [rewrite <- Hthrown; exact H1 |].
  split; [exact Hg |].
  assert (Hc : cell (grid (final o1)) 1 4 1 = Some OakLog)
    by (vm_compute; reflexivity).
  split; [exact Hc | rewrite <- Hcells; exact Hc].
Defined.


(** * Further properties of the worker *)

(** ** The allocator *)

Section AllocatorProperties.
Context {O : Oracle}.

(** X1.  For a width and a height that [new Array] accepts (0 to
    2^32 - 1) [initEmptyChunk] returns, whatever grid was there before;
    the new grid has exactly the configured keys at its three levels,
    every cell of the volume is Air, and the generator has not been
    touched. *)
Theorem initEmptyChunk_all_air (sz : WorldSize) (s : State) :
  arraySize (width sz) -> arraySize (height sz) ->
  exists s',
    initEmptyChunk sz s = Ok tt s' /\
    rng s' = rng s /\
    shaped sz (grid s') /\
    forall x y z, inVolume sz x y z -> cell (grid s') x y z = Some Air.
Proof.
  intros HW HH. pose proof (wp_initEmptyChunk sz s HW HH) as H.
  apply wp_ok in H as ([] & s' & Hrun & Hrng & Hb).
  exists s'. split; [exact Hrun |]. split; [exact Hrng |].
  pose proof (building_shaped sz (grid s') Hb) as [Hs Hair].
  split; [exact Hs |].
  intros x y z Hv. destruct (proj2 (proj2 (proj2 Hs) x y z) Hv) as [b Hc].
  rewrite Hc. f_equal. eapply Hair. exact Hc.
Qed.

Lemma forZ_empty lo hi (body : Z -> M unit) s :
  hi <= lo -> forZ lo hi body s = Ok tt s.
Proof. intros H. unfold forZ. rewrite seqZ_nil by lia. reflexivity. Qed.

Lemma forZ_first_throws lo hi (body : Z -> M unit) s :
  lo < hi -> returns (body lo s) = false ->
  thrown (forZ lo hi body s) = thrown (body lo s).
Proof.
  intros H Hb. unfold forZ. rewrite seqZ_cons by lia. simpl. unfold bind.
  destruct (body lo s); [discriminate | reflexivity].
Qed.

Lemma newArray_accepts n s : arraySize n -> newArray n s = Ok tt s.
Proof.
  unfold arraySize, newArray. intros H.
  assert (H1 : (n <? 0) = false) by lia.
  assert (H2 : (maxArrayLength <? n) = false) by lia.
  rewrite H1, H2. reflexivity.
Qed.

Lemma newArray_rejects n s :
  ~ arraySize n -> newArray n s = Throw RangeError s.
Proof.
  unfold arraySize, newArray. intros H.
  destruct (n <? 0) eqn:H1; [reflexivity |].
  destruct (maxArrayLength <? n) eqn:H2; [reflexivity |].
  exfalso. apply H. lia.
Qed.

(** X2.  [initEmptyChunk] throws a RangeError exactly when the width is
    not a length that [new Array] accepts (negative or above 2^32 - 1), or
    the width is positive and the height is not such a length; otherwise
    it returns, and a zero width returns the empty array whatever the
    height. *)
Theorem initEmptyChunk_range_error (sz : WorldSize) (s : State) :
  (badSizes sz -> thrown (initEmptyChunk sz s) = Some RangeError) /\
  (~ badSizes sz -> thrown (initEmptyChunk sz s) = None).
Proof.
  unfold badSizes.
  destruct (decide (0 <= width sz <= maxArrayLength)) as [HW|HW].
  - split.
    + intros [HW'|[Hpos HH]]; [contradiction |].
      unfold initEmptyChunk, bind.
      rewrite (newArray_accepts _ _ HW). simpl.
      rewrite forZ_first_throws; [| lia |];
        rewrite (newArray_rejects _ _ HH); reflexivity.
    + intros Hok.
      destruct (decide (width sz = 0)) as [H0|H0].
      * unfold initEmptyChunk, bind.
        rewrite (newArray_accepts _ _ HW). simpl.
        rewrite forZ_empty by lia. reflexivity.
      * pose proof (wp_initEmptyChunk sz s HW) as H.
        apply wp_ok in H as ([] & s' & Hrun & _).
        -- rewrite Hrun. reflexivity.
        -- destruct (decide (0 <= height sz <= maxArrayLength)) as [HH|HH];
             [exact HH |].
           exfalso. apply Hok. right. unfold arraySize in *. split; [lia |].
           exact HH.
  - split.
    + intros _. unfold initEmptyChunk, bind.
      rewrite (newArray_rejects _ _ HW). reflexivity.
    + intros Hok. exfalso. apply Hok. left. exact HW.
Qed.

End AllocatorProperties.

(** ** Drawing from a range *)

Section DrawProperties.
Context {O : Oracle} `{!OracleRange O}.

Lemma drawRange_run (r : Range) (s : State) :
  min r <= max r ->
  exists n,
    drawRange r s
    = Ok n (mkState (grid s) (snd (rng_random (rng s))) (trace s)) /\
    min r <= n <= max r.
Proof.
  intros Hr. unfold drawRange, bind, random, ret.
  pose proof (random_range (rng s)) as [H0 H1].
  destruct (rng_random (rng s)) as [u rs]. simpl in *.
  eexists. split; [reflexivity |].
  assert (0 <= jsRound (u * inject_Z (max r - min r)) <= max r - min r);
    [| lia].
  apply jsRound_bounds.
  - apply Qmult_le_0_compat; [exact H0 |].
    change 0%Q with (inject_Z 0). rewrite <- Zle_Qle. lia.
  - rewrite <- (Qmult_1_l (inject_Z (max r - min r))) at 2.
    apply Qmult_le_compat_r; [exact H1 |].
    change 0%Q with (inject_Z 0). rewrite <- Zle_Qle. lia.
Qed.

(** X3.  With draws in [0,1] and min <= max, the expression
    [Math.round(rng.random() * (max - min)) + min] of lines 159 and 170
    returns an integer of [min, max]; it advances the generator by one
    draw and touches neither the grid nor the trace. *)
Theorem drawRange_within (r : Range) (s : State) :
  min r <= max r ->
  exists n,
    drawRange r s
    = Ok n (mkState (grid s) (snd (rng_random (rng s))) (trace s)) /\
    min r <= n <= max r.
Proof. apply drawRange_run. Qed.

End DrawProperties.

(** ** The terrain stage *)

Section TerrainProperties.
Context {O : Oracle}.

Lemma terrainValue_in_band h nS nB y b :
  y < h -> (ofZ y <? nB)%float = false ->
  (ofZ y <? ofZ h - nS)%float = true ->
  terrainValue (Some h) nS nB y (Some b)
  = Some (if decide (b = Air) then Stone else b).
Proof.
  intros Hy Hb Hs. unfold terrainValue, terrainValueAt.
  assert (H1 : (y <? h) = true) by lia. rewrite H1, Hb, Hs. simpl.
  destruct (decide (b = Air)) as [->|Hne].
  - rewrite bool_decide_eq_true_2 by reflexivity. reflexivity.
  - rewrite bool_decide_eq_false_2 by exact Hne. reflexivity.
Qed.

(** X4.  On a populated grid [generateTerrain] returns, and inside the
    stone band of a column (the surface height is a number and the code's
    tests [y < height], [y < numBedrockBlocks] and
    [y < height - numSurfaceBlocks], evaluated in doubles, give true,
    false and true) it keeps every block that is not Air and turns Air
    into Stone. *)
Theorem generateTerrain_stone_band (sz : WorldSize) (params : WorldParams)
    (chunkPos : Vector3) (s : State) :
  populated sz (grid s) ->
  exists s',
    generateTerrain sz params chunkPos s = Ok tt s' /\
    forall x y z b, inVolume sz x y z ->
      cell (grid s) x y z = Some b ->
      inStoneBand (fst (simplex_new (rng s))) sz params chunkPos x y z ->
      cell (grid s') x y z = Some (if decide (b = Air) then Stone else b).
Proof.
  intros Hp.
  destruct (generateTerrain_cells sz params chunkPos s Hp)
    as (s' & Hrun & _ & Hcells).
  exists s'. split; [exact Hrun |].
  intros x y z b Hv Hb (h & Hcol & Hy & Hbed & Hsurf).
  destruct (Hcells x y z Hv) as (b0 & Hb0 & Hc).
  rewrite Hc. assert (b0 = b) as -> by congruence.
  unfold terrainMap. rewrite Hcol.
  apply terrainValue_in_band; assumption.
Qed.

Lemma wp_terrainColumns simplex sz params chunkPos s :
  rowsOk sz (grid s) ->
  wp (terrainColumns simplex sz params chunkPos)
    (fun _ s' =>
       mapsCells (inVolume sz) (terrainMap simplex sz params chunkPos) s s')
    (fun _ => False) s.
Proof.
  intros Hr. unfold terrainColumns.
  apply (wp_sweep_xzy sz _
           (fun x z y =>
              terrainCell
                (columnHeight simplex sz params chunkPos x z)
                (numSurfaceBlocks simplex params x z)
                (numBedrockBlocks simplex params x z)
                x z y));
    [exact Hr |].
  intros x y z s1 (Hx & Hy & Hz) H1.
  apply wp_terrainCell; [apply H1; assumption | reflexivity].
Qed.

Lemma terrainValue_idempotent h nS nB y b b' :
  terrainValue h nS nB y (Some b) = Some b' ->
  terrainValue h nS nB y (Some b') = Some b'.
Proof.
  destruct h as [h|]; simpl; [| intros [= <-]; reflexivity].
  unfold terrainValueAt.
  destruct (y <? h); [| destruct (y =? h); intros [= <-]; reflexivity].
  destruct (ofZ y <? nB)%float; [intros [= <-]; reflexivity |].
  destruct (ofZ y <? ofZ h - nS)%float; [| intros [= <-]; reflexivity].
  simpl. destruct (bool_decide (b = Air)) eqn:Hb.
  - intros [= <-]. reflexivity.
  - intros [= <-]. rewrite Hb. reflexivity.
Qed.

(** X5.  The terrain loops of lines 84-123 are idempotent for a given
    noise field: on a populated grid a second pass returns and leaves
    every cell as the first pass left it. *)
Theorem terrainColumns_idempotent (simplex : Simplex) (sz : WorldSize)
    (params : WorldParams) (chunkPos : Vector3) (s : State) :
  populated sz (grid s) ->
  exists s1 s2,
    terrainColumns simplex sz params chunkPos s = Ok tt s1 /\
    terrainColumns simplex sz params chunkPos s1 = Ok tt s2 /\
    forall x y z, cell (grid s2) x y z = cell (grid s1) x y z.
Proof.
  intros Hp. pose proof (populated_rowsOk _ _ Hp) as Hr.
  pose proof (wp_terrainColumns simplex sz params chunkPos s Hr) as H1.
  apply wp_ok in H1 as ([] & s1 & Hrun1 & Hm1).
  pose proof (wp_terrainColumns simplex sz params chunkPos s1
                (mapsCells_rowsOk sz _ _ _ _ Hm1 Hr)) as H2.
  apply wp_ok in H2 as ([] & s2 & Hrun2 & Hm2).
  exists s1, s2. split; [exact Hrun1 |]. split; [exact Hrun2 |].
  intros x y z.
  destruct (decide (0 <= x < width sz /\ 0 <= y < height sz
                    /\ 0 <= z < width sz)) as [Hv|Hv].
  - rewrite (mc_in _ _ _ _ Hm2 x y z Hv).
    pose proof (mc_in _ _ _ _ Hm1 x y z Hv) as Hc1.
    destruct Hv as (Hx & Hy & Hz). destruct (Hp x y z Hx Hy Hz) as [b Hb].
    rewrite Hb in Hc1. unfold terrainMap in *.
    destruct (terrainValue_is_Some
                (columnHeight simplex sz params chunkPos x z)
                (numSurfaceBlocks simplex params x z)
                (numBedrockBlocks simplex params x z) y b) as [b' Hb'].
    rewrite Hc1, Hb'. eapply terrainValue_idempotent. exact Hb'.
  - apply (mc_out _ _ _ _ Hm2 x y z Hv).
Qed.







End TerrainProperties.

Section TerrainErrors.
Context {O : Oracle}.

Lemma wp_terrainCell_row h nSurface nBedrock x z y s :
  wp (terrainCellAt h nSurface nBedrock x z y)
    (fun _ s' =>
       is_Some (row (grid s) x y) /\
       forall x' y',
         is_Some (row (grid s') x' y') <-> is_Some (row (grid s) x' y'))
    (fun _ => True) s.
Proof.
  assert (Hw : forall v,
            wp (writeBlock ByTerrain x y z v)
              (fun _ s' =>
                 is_Some (row (grid s) x y) /\
                 forall x' y',
                   is_Some (row (grid s') x' y')
                   <-> is_Some (row (grid s) x' y'))
              (fun _ => True) s).
  { intros v. apply wp_writeBlock; [| auto].
    intros Hr. split; [exact Hr |]. intros x' y'. simpl. apply row_setCell. }
  unfold terrainCellAt.
  destruct (y <? h) eqn:Hlt.
  - destruct (ofZ y <? nBedrock)%float; [apply Hw |].
    destruct (ofZ y <? ofZ h - nSurface)%float; [| apply Hw].
    apply wp_bind, wp_readBlock; [| auto]. intros Hr.
    destruct (strictEq _ Air); [apply Hw |].
    apply wp_ret. split; [exact Hr | reflexivity].
  - destruct (y =? h) eqn:Heq; [apply Hw |].
    assert (Hgt : (y >? h) = true) by lia. rewrite Hgt. apply Hw.
Qed.

Lemma wp_terrainColumns_rows simplex sz params chunkPos s :
  (forall x z, 0 <= x < width sz -> 0 <= z < width sz ->
     is_Some (columnHeight simplex sz params chunkPos x z)) ->
  wp (terrainColumns simplex sz params chunkPos)
    (fun _ _ => rowsOk sz (grid s)) (fun _ => True) s.
Proof.
  intros Hnum. unfold terrainColumns.
  eapply wp_mono;
    [apply (wp_forZ (fun k s1 =>
       (forall x' y', is_Some (row (grid s1) x' y')
                      <-> is_Some (row (grid s) x' y')) /\
       forall x' y', 0 <= x' < k -> 0 <= y' < height sz ->
         is_Some (row (grid s) x' y')))
    | | intros ? HE; exact HE].
  - split; [reflexivity | intros; lia].
  - intros x s1 Hx [Hsame Hdone].
    eapply wp_mono;
      [apply (wp_forZ (fun k s2 =>
         (forall x' y', is_Some (row (grid s2) x' y')
                        <-> is_Some (row (grid s) x' y')) /\
         (0 < k -> forall y', 0 <= y' < height sz ->
            is_Some (row (grid s) x y'))))
      | | intros ? HE; exact HE].
    + split; [exact Hsame | intros; lia].
    + intros z s2 Hz [Hsame2 _].
      destruct (Hnum x z) as [h Hh]; [lia | lia |]. rewrite Hh.
      eapply wp_mono;
        [apply (wp_forZ (fun j s3 =>
           (forall x' y', is_Some (row (grid s3) x' y')
                          <-> is_Some (row (grid s) x' y')) /\
           forall y', 0 <= y' < j -> is_Some (row (grid s) x y')))
        | | intros ? HE; exact HE].
      * split; [exact Hsame2 | intros; lia].
      * intros y s3 Hy [Hsame3 Hy3]. unfold terrainCell.
        eapply wp_mono; [apply wp_terrainCell_row | | auto].
        intros [] s4 [Hrow Hsame4]. simpl. split.
        -- intros x' y'. rewrite Hsame4. apply Hsame3.
        -- intros y' Hy'. destruct (decide (y' = y)) as [->|Hne];
             [apply Hsame3, Hrow | apply Hy3; lia].
      * intros [] s3 [Hsame3 Hy3]. simpl. split; [exact Hsame3 |].
        intros _ y' Hy'. apply Hy3. lia.
    + intros [] s2 [Hsame2 Hrows]. simpl. split; [exact Hsame2 |].
      intros x' y' Hx' Hy'. destruct (decide (x' = x)) as [->|Hne];
        [apply Hrows; lia | apply Hdone; lia].
  - intros [] s1 [_ Hdone]. simpl. intros x' y' Hx' Hy'. apply Hdone; lia.
Qed.

(** X7.  When the surface height of every column is a number (not NaN),
    [generateTerrain] returns exactly when the grid has every row
    [input[x][y]] of the configured volume; on a grid that lacks one it
    throws while indexing [undefined].  (A column whose height is NaN is
    never indexed.) *)
Theorem generateTerrain_returns_iff_rows (sz : WorldSize)
    (params : WorldParams) (chunkPos : Vector3) (s : State) :
  (forall x z, 0 <= x < width sz -> 0 <= z < width sz ->
     is_Some (columnHeight (fst (simplex_new (rng s))) sz params chunkPos
                x z)) ->
  returns (generateTerrain sz params chunkPos s) = true <->
  rowsOk sz (grid s).
Proof.
  intros Hnum. split.
  - intros Hret.
    assert (H : wp (generateTerrain sz params chunkPos)
                  (fun _ _ => rowsOk sz (grid s)) (fun _ => True) s).
    { unfold generateTerrain. apply wp_bind, wp_newSimplexNoise.
      apply (wp_terrainColumns_rows _ sz params chunkPos (withSimplex s)).
      exact Hnum. }
    unfold wp in H.
    destruct (generateTerrain sz params chunkPos s); [exact H | discriminate].
  - intros Hr. pose proof (wp_generateTerrain sz params chunkPos s Hr) as H.
    apply wp_ok in H as ([] & s' & Hrun & _). rewrite Hrun. reflexivity.
Qed.

End TerrainErrors.

(** ** What the resource stage assigns *)

Section ResourceProperties.
Context {O : Oracle}.

Lemma traces_stampResources simplex sz chunkPos entries rest :
  (forall e, e ∈ rest -> e ∈ entries) ->
  traces (resourceWrite simplex sz chunkPos entries)
    (stampResources simplex sz chunkPos rest).
Proof.
  induction rest as [|[name config] rest IH]; intros Hin;
    [apply traces_ret |].
  simpl. apply traces_bind.
  - unfold stampResource.
    apply traces_forZ. intros x Hx. apply traces_forZ. intros y Hy.
    apply traces_forZ. intros z Hz.
    destruct (resourcePasses simplex chunkPos config x y z) eqn:Hp;
      [| apply traces_ret].
    apply traces_writeBlock. intros old. unfold resourceWrite. simpl.
    split; [reflexivity |]. split; [unfold inVolume; lia |].
    exists (name, config). split; [apply Hin; left | auto].
  - intros _. apply IH. intros e He. apply Hin. right. exact He.
Qed.

(** X8.  In every run of [generateResources], from any grid and whether
    it returns or throws, each assignment is to a cell inside the
    configured volume and stores the identifier of a configured resource
    whose noise sample exceeds its scarcity at that cell; with an empty
    configuration nothing is assigned. *)
Theorem generateResources_assignments (entries : OreEntries)
    (sz : WorldSize) (chunkPos : Vector3) (s : State) :
  exists t,
    trace (final (generateResources entries sz chunkPos s)) = trace s ++ t /\
    Forall (resourceWrite (fst (simplex_new (rng s))) sz chunkPos entries) t /\
    (entries = [] -> t = []).
Proof.
  assert (Hrun : generateResources entries sz chunkPos s
                 = stampResources (fst (simplex_new (rng s))) sz chunkPos
                     entries (withSimplex s)).
  { unfold generateResources, bind, newSimplexNoise, withSimplex.
    destruct (simplex_new (rng s)) as [simplex r]. reflexivity. }
  rewrite Hrun.
  destruct (traces_final
              (resourceWrite (fst (simplex_new (rng s))) sz chunkPos entries)
              (stampResources (fst (simplex_new (rng s))) sz chunkPos entries)
              (withSimplex s)
              (traces_stampResources _ sz chunkPos entries entries
                 (fun e He => He))) as (t & Ht & HF).
  exists t. simpl in Ht. split; [exact Ht |]. split; [exact HF |].
  intros ->. simpl in Ht. symmetry in Ht.
  rewrite <- (app_nil_r (trace s)) in Ht at 2.
  apply app_inv_head in Ht. exact Ht.
Qed.

End ResourceProperties.

(** ** What the tree stage assigns *)

Section TreeProperties.
Context {O : Oracle}.

Lemma traces_trunk P baseX baseY baseZ topY :
  (forall i old, baseY <= i ->
     P (mkWriteRec (ByTrunk baseX baseY baseZ) baseX i baseZ old OakLog)) ->
  traces P
    (forZ baseY topY (fun i =>
       writeBlock (ByTrunk baseX baseY baseZ) baseX i baseZ OakLog)).
Proof.
  intros HP. apply traces_forZ. intros i Hi. apply traces_writeBlock.
  intros old. apply HP. lia.
Qed.

Lemma trunkWrite_trunk baseX baseY baseZ i old :
  baseY <= i ->
  trunkWrite (mkWriteRec (ByTrunk baseX baseY baseZ) baseX i baseZ old OakLog).
Proof. intros Hi. exists baseX, baseY, baseZ. simpl. auto. Qed.

(** X9.  In every run of [generateTrees], from any grid and whether it
    returns or throws, each assignment is either OakLog by a trunk, in the
    base column at or above the trunk base, or Leaves by a canopy: the
    stage never assigns Air, Grass, Dirt, Stone, Bedrock or a resource. *)
Theorem generateTrees_assigns_wood_only (sz : WorldSize)
    (params : WorldParams) (chunkPos : Vector3) (s : State) :
  exists t,
    trace (final (generateTrees sz params chunkPos s)) = trace s ++ t /\
    Forall woodWrite t.
Proof.
  apply traces_final. unfold generateTrees.
  apply traces_bind; [apply traces_newSimplexNoise |]. intros simplex.
  unfold treeColumns.
  apply traces_forZ. intros baseX _. apply traces_forZ. intros baseZ _.
  unfold treeColumn. destruct (treeSkipped _ _ _ _ _); [apply traces_ret |].
  apply traces_forDown. intros y _. unfold scanCell.
  apply traces_bind; [apply traces_readBlock |]. intros b.
  destruct (negb (strictEq b Grass)); [apply traces_ret |].
  unfold plantTree.
  apply traces_bind; [apply traces_drawRange |]. intros trunk.
  apply traces_bind.
  { apply traces_trunk. intros i old Hi. left.
    apply trunkWrite_trunk. exact Hi. }
  intros _. apply traces_bind; [apply traces_drawRange |]. intros R.
  unfold generateCanopy.
  apply traces_forZ. intros x _. apply traces_forZ. intros y' _.
  apply traces_forZ. intros z _. unfold canopyCell.
  destruct (_ >? _); [apply traces_ret |].
  apply traces_bind; [apply traces_readBlock |]. intros b'.
  destruct (negb (strictEq b' Air)); [apply traces_ret |].
  apply traces_bind; [apply traces_random |]. intros u.
  destruct (Qltb _ u); [| apply traces_ret].
  apply traces_writeBlock. intros old. right.
  exists baseX, (y + 1 + trunk), baseZ, R. simpl. auto.
Qed.

Lemma traces_random_le_one `{!OracleRange O} P s :
  wp random (fun u s' => (u <= 1)%Q /\ emits P s s')
    (fun s' => emits P s s') s.
Proof.
  apply wp_random. intros u r Hu.
  pose proof (random_range (rng s)) as [_ H1]. rewrite Hu in H1.
  split; [exact H1 | apply emits_same; reflexivity].
Qed.

(** X10.  With canopy.density >= 1 and draws in [0,1] the test
    [rng.random() > density] never passes: in every run of
    [generateTrees], from any grid, every assignment is a trunk's OakLog
    and no Leaves is placed. *)
Theorem generateTrees_dense_canopy_is_bare `{!OracleRange O}
    (sz : WorldSize) (params : WorldParams) (chunkPos : Vector3)
    (s : State) :
  (1 <= density (canopy (trees params)))%Q ->
  exists t,
    trace (final (generateTrees sz params chunkPos s)) = trace s ++ t /\
    Forall trunkWrite t.
Proof.
  intros Hd. apply traces_final. unfold generateTrees.
  apply traces_bind; [apply traces_newSimplexNoise |]. intros simplex.
  unfold treeColumns.
  apply traces_forZ. intros baseX _. apply traces_forZ. intros baseZ _.
  unfold treeColumn. destruct (treeSkipped _ _ _ _ _); [apply traces_ret |].
  apply traces_forDown. intros y _. unfold scanCell.
  apply traces_bind; [apply traces_readBlock |]. intros b.
  destruct (negb (strictEq b Grass)); [apply traces_ret |].
  unfold plantTree.
  apply traces_bind; [apply traces_drawRange |]. intros trunk.
  apply traces_bind.
  { apply traces_trunk. intros i old Hi.
    apply trunkWrite_trunk. exact Hi. }
  intros _. apply traces_bind; [apply traces_drawRange |]. intros R.
  unfold generateCanopy.
  apply traces_forZ. intros x _. apply traces_forZ. intros y' _.
  apply traces_forZ. intros z _. unfold canopyCell.
  destruct (_ >? _); [apply traces_ret |].
  apply traces_bind; [apply traces_readBlock |]. intros b'.
  destruct (negb (strictEq b' Air)); [apply traces_ret |].
  apply (traces_bind_val _ (fun u => (u <= 1)%Q));
    [intros s1; apply traces_random_le_one |].
  intros u Hu.
  assert (Hno : Qltb (density (canopy (trees params))) u = false).
  { apply Qltb_ge. eapply Qle_trans; eassumption. }
  rewrite Hno. apply traces_ret.
Qed.

End TreeProperties.

(** ** When the tree stage does nothing, and when it fails *)

Section TreeEdges.
Context {O : Oracle}.

Lemma generateTrees_unfold sz params chunkPos s :
  generateTrees sz params chunkPos s
  = treeColumns (fst (simplex_new (rng s))) sz params chunkPos (withSimplex s).
Proof.
  unfold generateTrees, bind, newSimplexNoise, withSimplex.
  destruct (simplex_new (rng s)) as [simplex r]. reflexivity.
Qed.

(** X11.  A chunk no wider than twice canopy.size.max has no candidate
    column: [generateTrees] returns on any grid, even an empty one,
    having only built its noise field. *)
Theorem generateTrees_narrow_chunk (sz : WorldSize) (params : WorldParams)
    (chunkPos : Vector3) (s : State) :
  width sz <= 2 * max (size (canopy (trees params))) ->
  generateTrees sz params chunkPos s = Ok tt (withSimplex s).
Proof.
  intros HW. rewrite generateTrees_unfold. unfold treeColumns.
  apply forZ_empty. lia.
Qed.

Lemma foldM_fix (body : Z -> M unit) l s :
  (forall k, k ∈ l -> body k s = Ok tt s) -> foldM body l s = Ok tt s.
Proof.
  induction l as [|k l IH]; intros Hb; [reflexivity |].
  simpl. unfold bind. rewrite Hb by left. apply IH.
  intros j Hj. apply Hb. right. exact Hj.
Qed.

Lemma foldM_throws (body : Z -> M unit) pre k post s e s' :
  (forall j, j ∈ pre -> body j s = Ok tt s) ->
  body k s = Throw e s' ->
  foldM body (pre ++ k :: post) s = Throw e s'.
Proof.
  induction pre as [|j pre IH]; intros Hpre Hk; simpl; unfold bind.
  - rewrite Hk. reflexivity.
  - rewrite Hpre by left. apply IH; [| exact Hk].
    intros i Hi. apply Hpre. right. exact Hi.
Qed.

Lemma strictEq_false b c : b <> Some c -> strictEq b c = false.
Proof.
  destruct b as [b|]; simpl; [| reflexivity].
  intros H. apply bool_decide_eq_false_2. congruence.
Qed.

(** X12.  On a grid that has the rows of the volume and no Grass in it,
    with canopy.size.max >= 0, [generateTrees] returns having only built
    its noise field: no draw is made, no cell is assigned. *)
Theorem generateTrees_without_grass (sz : WorldSize) (params : WorldParams)
    (chunkPos : Vector3) (s : State) :
  0 <= max (size (canopy (trees params))) ->
  rowsOk sz (grid s) ->
  (forall x y z, inVolume sz x y z -> cell (grid s) x y z <> Some Grass) ->
  generateTrees sz params chunkPos s = Ok tt (withSimplex s).
Proof.
  intros Hc Hr Hno. rewrite generateTrees_unfold. unfold treeColumns, forZ.
  apply foldM_fix. intros baseX HX. apply elem_of_seqZ in HX.
  apply foldM_fix. intros baseZ HZ. apply elem_of_seqZ in HZ.
  unfold treeColumn. destruct (treeSkipped _ _ _ _ _); [reflexivity |].
  unfold forDown. apply foldM_fix. intros y Hy.
  rewrite elem_of_reverse, elem_of_seqZ in Hy.
  unfold scanCell, bind, readBlock. simpl.
  destruct (Hr baseX y) as [r Hrow]; [lia | lia |].
  rewrite Hrow.
  rewrite strictEq_false; [reflexivity |].
  specialize (Hno baseX y baseZ). unfold cell in Hno. rewrite Hrow in Hno.
  apply Hno. unfold inVolume. lia.
Qed.

End TreeEdges.

Section TreeCrash.
Context {O : Oracle} `{!OracleRange O}.

Lemma seqZ_around_zero R :
  0 <= R -> seqZ (- R) (R + 1 - - R) = seqZ (- R) R ++ 0 :: seqZ 1 R.
Proof.
  intros HR. replace (R + 1 - - R) with (R + (1 + R)) by lia.
  rewrite seqZ_app by lia. f_equal.
  replace (- R + R) with 0 by lia. rewrite seqZ_cons by lia.
  f_equal. f_equal. lia.
Qed.

Lemma canopyCell_outside params baseX topY baseZ R x y z s :
  R * R < x * x + y * y + z * z ->
  canopyCell params baseX topY baseZ R x y z s = Ok tt s.
Proof.
  intros H. unfold canopyCell.
  assert (Hgt : (x * x + y * y + z * z >? R * R) = true) by lia.
  rewrite Hgt. reflexivity.
Qed.

Lemma foldM_head_throws (body : Z -> M unit) lo n s e s' :
  0 < n -> body lo s = Throw e s' ->
  foldM body (seqZ lo n) s = Throw e s'.
Proof.
  intros Hn Hb. rewrite seqZ_cons by lia. simpl. unfold bind.
  rewrite Hb. reflexivity.
Qed.

Lemma foldM_zero_throws (body : Z -> M unit) R s e s' :
  0 <= R ->
  (forall j, - R <= j < 0 -> body j s = Ok tt s) ->
  body 0 s = Throw e s' ->
  foldM body (seqZ (- R) (R + 1 - - R)) s = Throw e s'.
Proof.
  intros HR Hpre H0. rewrite seqZ_around_zero by exact HR.
  apply foldM_throws; [| exact H0].
  intros j Hj. apply elem_of_seqZ in Hj. apply Hpre. lia.
Qed.

(** The first cell of the canopy cube that lies inside the sphere is
    (-R, 0, 0); if its row is missing the canopy loops throw there, before
    any draw or assignment. *)
Lemma generateCanopy_throws params baseX topY baseZ R s :
  0 <= R ->
  row (grid s) (baseX + - R) (topY + 0) = None ->
  generateCanopy params baseX topY baseZ R s = Throw TypeError s.
Proof.
  intros HR Hrow. unfold generateCanopy, forZ.
  apply foldM_head_throws; [lia |].
  apply foldM_zero_throws; [exact HR | |].
  - intros y Hy. apply foldM_fix. intros z _.
    apply canopyCell_outside. nia.
  - apply foldM_zero_throws; [exact HR | |].
    + intros z Hz. apply canopyCell_outside. nia.
    + unfold canopyCell.
      assert (Hin : (- R * - R + 0 * 0 + 0 * 0 >? R * R) = false) by lia.
      rewrite Hin. unfold bind, readBlock. rewrite Hrow. reflexivity.
Qed.

(** X13.  A tree on a Grass tile of the top layer always fails: with
    draws in [0,1], 0 <= trunkHeight.min <= trunkHeight.max and 0 <=
    canopy.size.min <= canopy.size.max, on a grid with no row at y >=
    height, the scan step of lines 150-191 at y = height - 1 throws a
    TypeError when that cell is Grass, and it does so before assigning
    any cell. *)
Theorem scanCell_top_layer_throws (sz : WorldSize) (params : WorldParams)
    (baseX baseZ : Z) (s : State) :
  0 <= min (trunkHeight (trees params)) <= max (trunkHeight (trees params)) ->
  0 <= min (size (canopy (trees params)))
    <= max (size (canopy (trees params))) ->
  (forall x y, height sz <= y -> row (grid s) x y = None) ->
  cell (grid s) baseX (height sz - 1) baseZ = Some Grass ->
  exists s',
    scanCell params baseX baseZ (height sz - 1) s = Throw TypeError s' /\
    grid s' = grid s /\ trace s' = trace s.
Proof.
  intros Ht Hc Hnone Hgrass.
  unfold scanCell, bind, readBlock. unfold cell in Hgrass.
  destruct (row (grid s) baseX (height sz - 1)) as [r|] eqn:Hrow;
    [| discriminate].
  rewrite Hgrass. simpl.
  unfold plantTree, bind.
  destruct (drawRange_run (trunkHeight (trees params)) s) as (n & Hn & Hnr);
    [lia |].
  rewrite Hn.
  set (s1 := mkState (grid s) (snd (rng_random (rng s))) (trace s)).
  destruct (decide (n = 0)) as [->|Hpos].
  - rewrite forZ_empty by lia.
    destruct (drawRange_run (size (canopy (trees params))) s1)
      as (R & HR & HRr); [lia |].
    rewrite HR.
    eexists. split.
    + apply generateCanopy_throws; [lia |]. simpl. apply Hnone. lia.
    + split; reflexivity.
  - exists s1. split; [| split; reflexivity].
    assert (Hthrow : forZ (height sz - 1 + 1) (height sz - 1 + 1 + n)
              (fun i => writeBlock
                          (ByTrunk baseX (height sz - 1 + 1) baseZ)
                          baseX i baseZ OakLog) s1
            = Throw TypeError s1).
    { unfold forZ. apply foldM_head_throws; [lia |].
      unfold writeBlock. simpl. rewrite Hnone by lia. reflexivity. }
    rewrite Hthrow. reflexivity.
Qed.

End TreeCrash.

(** ** The chunk below its surface *)

Section Ground.
Context {O : Oracle}.

Lemma terrainValue_grass_at h nS nB y b0 :
  b0 <> Grass -> y <= h ->
  terrainValue (Some h) nS nB y (Some b0) = Some Grass -> y = h.
Proof.
  intros Hb Hy. unfold terrainValue, terrainValueAt.
  destruct (y <? h) eqn:Hlt; [| lia].
  destruct (ofZ y <? nB)%float; [discriminate |].
  destruct (ofZ y <? ofZ h - nS)%float; [| discriminate].
  simpl. destruct (bool_decide (b0 = Air)); [discriminate | congruence].
Qed.

Lemma atOrBelowSurface_cases sz params chunkPos x y z :
  inVolume sz x y z ->
  atOrBelowSurface sz params chunkPos x y z
  \/ ~ atOrBelowSurface sz params chunkPos x y z.
Proof.
  intros Hv. unfold atOrBelowSurface.
  destruct (columnHeight (terrainNoise params) sz params chunkPos x z)
    as [h|].
  - destruct (Z_le_gt_dec y h) as [Hle|Hgt].
    + left. split; [exact Hv |]. exists h. auto.
    + right. intros [_ (h' & [= <-] & Hle)]. lia.
  - right. intros [_ (h' & Hh & _)]. discriminate.
Qed.

Lemma keepsGround_refl sz params chunkPos g0 :
  (forall x y z, inVolume sz x y z ->
     ~ atOrBelowSurface sz params chunkPos x y z ->
     cell g0 x y z <> Some Grass) ->
  keepsGround sz params chunkPos g0 g0.
Proof. intros H. split; [reflexivity | exact H]. Qed.

Lemma keepsGround_setCell sz params chunkPos g0 (g : Grid) x y z v :
  keepsGround sz params chunkPos g0 g ->
  is_Some (row g x y) -> v <> Grass ->
  ~ atOrBelowSurface sz params chunkPos x y z ->
  keepsGround sz params chunkPos g0 (setCell g x y z v).
Proof.
  intros [K1 K2] Hr Hv Hnot. split.
  - intros x' y' z' Hat. rewrite cell_setCell_ne; [apply K1, Hat |].
    intros [= -> -> ->]. apply Hnot, Hat.
  - intros x' y' z' Hin Hy.
    destruct (decide ((x', y', z') = (x, y, z))) as [[= -> -> ->]|Hne].
    + rewrite cell_setCell_eq by exact Hr. congruence.
    + rewrite cell_setCell_ne by exact Hne. apply K2; assumption.
Qed.

Lemma wp_drawRange_any (r : Range) (Q : Z -> State -> Prop) E s :
  (forall n rs, Q n (mkState (grid s) rs (trace s))) ->
  wp (drawRange r) Q E s.
Proof.
  intros H. unfold drawRange. apply wp_bind, wp_random.
  intros u rs _. apply wp_ret. apply H.
Qed.

End Ground.

Section GroundRun.
Context {O : Oracle}.

Lemma wp_generateTrees_ground sz params chunkPos g0 s :
  0 <= max (size (canopy (trees params))) ->
  (forall x y z, atOrBelowSurface sz params chunkPos x y z ->
     cell g0 x y z <> Some Air) ->
  (forall x y z, atOrBelowSurface sz params chunkPos x y z ->
     cell g0 x y z = Some Grass ->
     columnHeight (terrainNoise params) sz params chunkPos x z = Some y) ->
  keepsGround sz params chunkPos g0 (grid s) ->
  wp (generateTrees sz params chunkPos)
    (fun _ s' => keepsGround sz params chunkPos g0 (grid s'))
    (fun s' => keepsGround sz params chunkPos g0 (grid s')) s.
Proof.
  intros Hc Hsolid Htop Hk0.
  unfold generateTrees. apply wp_bind, wp_newSimplexNoise.
  unfold treeColumns.
  apply wp_forZ_inv; [exact Hk0 |]. intros baseX s1 HX H1.
  apply wp_forZ_inv; [exact H1 |]. intros baseZ s2 HZ H2.
  unfold treeColumn. destruct (treeSkipped _ _ _ _ _); [apply wp_ret; exact H2 |].
  apply wp_forDown_inv; [exact H2 |]. intros y s3 Hy H3.
  unfold scanCell. apply wp_bind, wp_readBlock; [| intros _; exact H3].
  intros _.
  destruct (strictEq (cell (grid s3) baseX y baseZ) Grass) eqn:Hg;
    simpl; [| apply wp_ret; exact H3].
  apply strictEq_true in Hg.
  assert (Hin : inVolume sz baseX y baseZ) by (unfold inVolume; lia).
  assert (Hyh : columnHeight (terrainNoise params) sz params chunkPos
                  baseX baseZ = Some y).
  { destruct (atOrBelowSurface_cases sz params chunkPos baseX y baseZ Hin)
      as [Hat|Hnot].
    - apply (Htop baseX y baseZ Hat).
      rewrite <- (proj1 H3) by exact Hat. exact Hg.
    - exfalso. apply (proj2 H3 baseX y baseZ Hin Hnot). exact Hg. }
  unfold plantTree.
  apply wp_bind, wp_drawRange_any. intros trunk rs.
  apply wp_bind.
  eapply wp_mono;
    [apply (wp_forZ_inv
              (fun s' => keepsGround sz params chunkPos g0 (grid s')))
    | | intros ? HE; exact HE].
  - exact H3.
  - intros i s4 Hi H4. apply wp_writeBlock; [| intros _; exact H4].
    intros Hr. simpl. apply keepsGround_setCell;
      [exact H4 | exact Hr | discriminate |].
    intros [_ (h & Hh & Hle)]. rewrite Hyh in Hh. injection Hh as <-. lia.
  - intros [] s4 H4. simpl.
    apply wp_bind, wp_drawRange_any. intros R rs'.
    unfold generateCanopy.
    apply wp_forZ_inv; [exact H4 |]. intros x s5 _ H5.
    apply wp_forZ_inv; [exact H5 |]. intros y' s6 _ H6.
    apply wp_forZ_inv; [exact H6 |]. intros z s7 _ H7.
    unfold canopyCell. destruct (_ >? _); [apply wp_ret; exact H7 |].
    apply wp_bind, wp_readBlock; [| intros _; exact H7]. intros Hr.
    destruct (strictEq (cell (grid s7) (baseX + x) (y + 1 + trunk + y')
                          (baseZ + z)) Air) eqn:Hair;
      simpl; [| apply wp_ret; exact H7].
    apply strictEq_true in Hair.
    apply wp_bind, wp_random. intros u r _.
    destruct (Qltb _ u); [| apply wp_ret; exact H7].
    apply wp_writeBlock; [| intros _; exact H7].
    intros _. simpl. apply keepsGround_setCell;
      [exact H7 | exact Hr | discriminate |].
    intros Hat. apply (Hsolid _ _ _ Hat).
    rewrite <- (proj1 H7) by exact Hat. exact Hair.
Qed.

Lemma chunk_ground entries sz params x z s :
  arraySize (width sz) -> arraySize (height sz) ->
  0 <= max (size (canopy (trees params))) ->
  (forall e, e ∈ entries -> id (snd e) <> Grass) ->
  forall x' y' z',
    atOrBelowSurface sz params (mkVector3 x 0 z) x' y' z' ->
    cell (grid (final (generateChunk entries sz params x z s))) x' y' z'
    = groundCell entries sz params (mkVector3 x 0 z) x' y' z'.
Proof.
  intros HW HH Hc Hids x' y' z' Hat.
  destruct (chunk_before_trees entries sz params x z s HW HH)
    as (s3 & Hrun & _ & Hs3 & Hcells).
  assert (Hnot_grass : forall b0, stamped entries b0 -> b0 <> Grass).
  { intros b0 [-> | (e & He & <-)]; [discriminate | apply Hids, He]. }
  assert (Hsolid : forall x1 y1 z1,
            atOrBelowSurface sz params (mkVector3 x 0 z) x1 y1 z1 ->
            cell (grid s3) x1 y1 z1 <> Some Air).
  { intros x1 y1 z1 [Hv (h & Hh & Hle)].
    destruct (Hcells x1 y1 z1 Hv) as (Hcell & b0 & Hst0 & _).
    rewrite Hcell. unfold groundCell, terrainMap. rewrite Hst0, Hh.
    destruct (terrainValue_solid h
                (numSurfaceBlocks (terrainNoise params) params x1 z1)
                (numBedrockBlocks (terrainNoise params) params x1 z1)
                y1 b0 Hle) as (b & Hb & Hne).
    rewrite Hb. congruence. }
  assert (Htop : forall x1 y1 z1,
            atOrBelowSurface sz params (mkVector3 x 0 z) x1 y1 z1 ->
            cell (grid s3) x1 y1 z1 = Some Grass ->
            columnHeight (terrainNoise params) sz params (mkVector3 x 0 z)
              x1 z1 = Some y1).
  { intros x1 y1 z1 [Hv (h & Hh & Hle)] Hgrass.
    destruct (Hcells x1 y1 z1 Hv) as (Hcell & b0 & Hst0 & Hst).
    rewrite Hcell in Hgrass. unfold groundCell, terrainMap in Hgrass.
    rewrite Hst0, Hh in Hgrass. rewrite Hh. f_equal. symmetry.
    eapply terrainValue_grass_at;
      [apply Hnot_grass, Hst | exact Hle | exact Hgrass]. }
  assert (Hk0 : keepsGround sz params (mkVector3 x 0 z) (grid s3) (grid s3)).
  { apply keepsGround_refl. intros x1 y1 z1 Hv Hnot.
    destruct (Hcells x1 y1 z1 Hv) as (Hcell & b0 & Hst0 & Hst).
    rewrite Hcell. unfold groundCell, terrainMap. rewrite Hst0.
    destruct (columnHeight (terrainNoise params) sz params (mkVector3 x 0 z)
                x1 z1) as [h|] eqn:Hh.
    - rewrite terrainValue_air; [discriminate |].
      destruct (Z_le_gt_dec y1 h) as [Hle|Hgt]; [| lia].
      exfalso. apply Hnot. split; [exact Hv |]. exists h. auto.
    - simpl. intros [= ->]. exact (Hnot_grass Grass Hst eq_refl). }
  pose proof (wp_generateTrees_ground sz params (mkVector3 x 0 z)
                (grid s3) s3 Hc Hsolid Htop Hk0) as Hwp.
  assert (Hk : keepsGround sz params (mkVector3 x 0 z) (grid s3)
                 (grid (final (generateChunk entries sz params x z s)))).
  { rewrite Hrun. unfold wp in Hwp.
    destruct (generateTrees sz params (mkVector3 x 0 z) s3); exact Hwp. }
  rewrite (proj1 Hk x' y' z' Hat).
  apply (Hcells x' y' z' (proj1 Hat)).
Qed.

(** X14.  Trees never dig into the ground.  For sizes that [new Array]
    accepts and a non-negative canopy.size.max, when no resource is
    configured with the Grass identifier, every cell at or below its
    column's surface height (where that height is a number) holds, in the
    chunk that [generateChunk] leaves (returned or at the point where the
    tree stage threw), exactly what the terrain stage made of the resource
    stamp over Air; in particular the surface cell of such a column is
    Grass. *)
Theorem generateChunk_ground_is_terrain (entries : OreEntries)
    (sz : WorldSize) (params : WorldParams) (x z : float) (s : State) :
  arraySize (width sz) -> arraySize (height sz) ->
  0 <= max (size (canopy (trees params))) ->
  (forall e, e ∈ entries -> id (snd e) <> Grass) ->
  forall x' y' z',
    atOrBelowSurface sz params (mkVector3 x 0 z) x' y' z' ->
    cell (grid (final (generateChunk entries sz params x z s))) x' y' z'
    = groundCell entries sz params (mkVector3 x 0 z) x' y' z' /\
    (columnHeight (terrainNoise params) sz params (mkVector3 x 0 z) x' z'
     = Some y' ->
     cell (grid (final (generateChunk entries sz params x z s))) x' y' z'
     = Some Grass).
Proof.
  intros HW HH Hc Hids x' y' z' Hat.
  pose proof (chunk_ground entries sz params x z s HW HH Hc Hids x' y' z' Hat)
    as Hcell.
  split; [exact Hcell |].
  intros Hh. rewrite Hcell. unfold groundCell, terrainMap. rewrite Hh.
  apply terrainValue_top.
Qed.

(** X15.  Where ore ends up.  Under the same conditions, a cell in the
    stone band of its column (as the code's comparisons in doubles
    delimit it) holds, in the chunk that [generateChunk] leaves, the
    identifier of the last configured resource whose sample exceeds its
    scarcity there, and Stone when no resource passes (or when that
    resource's identifier is Air). *)
Theorem generateChunk_stone_band_content (entries : OreEntries)
    (sz : WorldSize) (params : WorldParams) (x z : float) (s : State) :
  arraySize (width sz) -> arraySize (height sz) ->
  0 <= max (size (canopy (trees params))) ->
  (forall e, e ∈ entries -> id (snd e) <> Grass) ->
  forall x' y' z',
    inVolume sz x' y' z' ->
    inStoneBand (terrainNoise params) sz params (mkVector3 x 0 z) x' y' z' ->
    cell (grid (final (generateChunk entries sz params x z s))) x' y' z'
    = Some (bandBlock params (mkVector3 x 0 z) entries x' y' z').
Proof.
  intros HW HH Hc Hids x' y' z' Hv (h & Hh & Hy & Hbed & Hsurf).
  rewrite (chunk_ground entries sz params x z s HW HH Hc Hids x' y' z')
    by (split; [exact Hv | exists h; split; [exact Hh | lia]]).
  unfold groundCell, stampedOverAir, bandBlock. rewrite stampCells_last.
  unfold terrainMap. rewrite Hh.
  destruct (lastExceeding (resourceNoise params) (mkVector3 x 0 z) entries
              x' y' z') as [config|].
  - apply terrainValue_in_band; assumption.
  - rewrite terrainValue_in_band by assumption.
    rewrite decide_True by reflexivity. reflexivity.
Qed.

End GroundRun.

Section GroundCorollaries.
Context {O : Oracle}.

(** X16.  The bedrock floor of the chunk.  Under the conditions of X14,
    every cell below both its column's surface height and its bedrock
    thickness is Bedrock in the chunk that [generateChunk] leaves: neither
    a resource nor a tree replaces it. *)
Theorem generateChunk_bedrock_floor (entries : OreEntries)
    (sz : WorldSize) (params : WorldParams) (x z : float) (s : State) :
  arraySize (width sz) -> arraySize (height sz) ->
  0 <= max (size (canopy (trees params))) ->
  (forall e, e ∈ entries -> id (snd e) <> Grass) ->
  forall x' y' z' h,
    inVolume sz x' y' z' ->
    columnHeight (terrainNoise params) sz params (mkVector3 x 0 z) x' z'
    = Some h ->
    y' < h ->
    (ofZ y' <? numBedrockBlocks (terrainNoise params) params x' z')%float
    = true ->
    cell (grid (final (generateChunk entries sz params x z s))) x' y' z'
    = Some Bedrock.
Proof.
  intros HW HH Hc Hids x' y' z' h Hv Hh Hy Hbed.
  rewrite (chunk_ground entries sz params x z s HW HH Hc Hids x' y' z')
    by (split; [exact Hv | exists h; split; [exact Hh | lia]]).
  unfold groundCell, terrainMap. rewrite Hh.
  apply terrainValue_bedrock; assumption.
Qed.

End GroundCorollaries.

Section Continuity.
Context {O : Oracle}.

(** X17.  The surface is a function of the world coordinate.  Under the
    conditions of X14 and for a positive height, when the world
    coordinates that the code computes in doubles for column (xa, za) of
    the chunk at origin (ax, az) and for column (xb, zb) at origin
    (bx, bz) are the same numbers, the chunk generated at (ax, az) has
    Grass in its column (xa, za) at the surface height that the origin
    (bx, bz) gives to its column (xb, zb): chunks meet without a seam in
    the surface wherever their coordinates agree. *)
Theorem generateChunk_surface_continuous (entries : OreEntries)
    (sz : WorldSize) (params : WorldParams) (ax az bx bz : float)
    (xa za xb zb h : Z) (s : State) :
  arraySize (width sz) -> 0 < height sz <= maxArrayLength ->
  0 <= max (size (canopy (trees params))) ->
  (forall e, e ∈ entries -> id (snd e) <> Grass) ->
  0 <= xa < width sz -> 0 <= za < width sz ->
  (ax + ofZ xa)%float = (bx + ofZ xb)%float ->
  (az + ofZ za)%float = (bz + ofZ zb)%float ->
  columnHeight (terrainNoise params) sz params (mkVector3 bx 0 bz) xb zb
  = Some h ->
  cell (grid (final (generateChunk entries sz params ax az s))) xa h za
  = Some Grass.
Proof.
  intros HW HH Hc Hids Hx Hz Hcx Hcz Hh.
  assert (Hh' : columnHeight (terrainNoise params) sz params
                  (mkVector3 ax 0 az) xa za = Some h).
  { rewrite <- Hh. unfold columnHeight, scaledNoise. cbn [vx vz].
    rewrite Hcx, Hcz. reflexivity. }
  pose proof (columnHeight_range _ _ _ _ _ _ _ (proj1 HH) Hh') as Hr.
  rewrite (chunk_ground entries sz params ax az s HW
             ltac:(unfold arraySize; lia) Hc Hids).
  - unfold groundCell, terrainMap. rewrite Hh'. apply terrainValue_top.
  - split; [unfold inVolume; lia |]. exists h. split; [exact Hh' | lia].
Qed.

End Continuity.

(** ** Instances of the further properties *)

Lemma emptyChunk_shaped_air (sz : WorldSize) :
  arraySize (width sz) -> arraySize (height sz) ->
  shaped sz (grid (emptyChunk (O := exOracle) sz)) /\
  forall x y z b,
    cell (grid (emptyChunk (O := exOracle) sz)) x y z = Some b -> b = Air.
Proof.
  intros HW HH. unfold emptyChunk.
  pose proof (wp_initEmptyChunk sz (startState 0) HW HH) as H.
  apply wp_ok in H as ([] & s' & Hrun & _ & Hb). rewrite Hrun. simpl.
  apply building_shaped. exact Hb.
Qed.

Lemma exEntries_not_grass :
  forall e, e ∈ exEntries -> id (snd e) <> Grass.
Proof.
  intros e He. unfold exEntries in He.
  apply elem_of_cons in He as [->|He]; [discriminate |].
  apply elem_of_cons in He as [->|He]; [discriminate |].
  apply elem_of_nil in He. contradiction.
Qed.

Lemma topGrass_no_row_above :
  forall x y, height (mkWorldSize 1 2) <= y -> row (grid topGrass) x y = None.
Proof.
  intros x y Hy. destruct (row (grid topGrass) x y) as [r|] eqn:Hr;
    [| reflexivity].
  exfalso. assert (Hs : is_Some (row (grid topGrass) x y)) by eauto.
  unfold topGrass in Hs. simpl in Hs. apply row_setCell in Hs.
  destruct (emptyChunk_shaped_air (mkWorldSize 1 2)) as [(_ & S2 & _) _];
    [apply small_arraySize; simpl; lia | apply small_arraySize; simpl; lia |].
  apply S2 in Hs. simpl in *. lia.
Qed.

Lemma coalChunk_populated : populated bandSize (grid coalChunk).
Proof.
  apply generateResources_populated.
  apply initEmptyChunk_populated; apply small_arraySize; simpl; lia.
Qed.

Lemma initEmptyChunk_all_air_witness :
  arraySize (width midSize) /\ arraySize (height midSize) /\
  exists s' : @State exOracle,
    initEmptyChunk midSize (startState 0) = Ok tt s' /\
    rng s' = rng (startState (O := exOracle) 0) /\
    shaped midSize (grid s') /\
    forall x y z, inVolume midSize x y z -> cell (grid s') x y z = Some Air.
Proof.
  split; [apply small_arraySize; simpl; lia |].
  split; [apply small_arraySize; simpl; lia |].
  apply (initEmptyChunk_all_air (O := exOracle));
    apply small_arraySize; simpl; lia.
Defined.

Lemma drawRange_within_witness :
  OracleRange exOracle /\
  min (mkRange 4 7) <= max (mkRange 4 7) /\
  exists n,
    drawRange (O := exOracle) (mkRange 4 7) (startState 0)
    = Ok n (mkState (grid (startState 0))
              (snd (rng_random (rng (startState (O := exOracle) 0))))
              (trace (startState 0))) /\
    min (mkRange 4 7) <= n <= max (mkRange 4 7).
Proof.
  split; [exact (fixedOracle_range _ _ _ half_unit) |].
  split; [simpl; lia |].
  apply (drawRange_within (O := exOracle)
           (OracleRange0 := fixedOracle_range _ _ _ half_unit)).
  simpl. lia.
Defined.

(** In the column (1, 0) of the 2 x 8 x 2 world the stone band is y = 1
    and y = 2: the coal at y = 2 is kept. *)
Lemma generateTerrain_stone_band_witness :
  populated bandSize (grid coalChunk) /\
  cell (grid coalChunk) 1 2 0 = Some (Ore 0) /\
  inStoneBand (fst (simplex_new (rng coalChunk))) bandSize midParams exOrigin
    1 2 0 /\
  exists s' : @State exOracle,
    generateTerrain bandSize midParams exOrigin coalChunk = Ok tt s' /\
    cell (grid s') 1 2 0 = Some (Ore 0).
Proof.
  assert (Hc : cell (grid coalChunk) 1 2 0 = Some (Ore 0))
    by (vm_compute; reflexivity).
  assert (Hb : inStoneBand (fst (simplex_new (rng coalChunk))) bandSize
                 midParams exOrigin 1 2 0).
  { exists 4. split; [reflexivity |]. split; [lia |].
    split; reflexivity. }
  split; [exact coalChunk_populated |]. split; [exact Hc |].
  split; [exact Hb |].
  destruct (generateTerrain_stone_band (O := exOracle) bandSize midParams
              exOrigin coalChunk coalChunk_populated)
    as (s' & Hrun & Hband).
  exists s'. split; [exact Hrun |].
  apply (Hband 1 2 0 (Ore 0)); [unfold inVolume; simpl; lia | exact Hc
                               | exact Hb].
Defined.

Lemma terrainColumns_idempotent_witness :
  populated midSize (grid (emptyChunk (O := exOracle) midSize)) /\
  exists s1 s2 : @State exOracle,
    terrainColumns (fst (simplex_new (rng_new 0))) midSize midParams exOrigin
      (emptyChunk midSize) = Ok tt s1 /\
    terrainColumns (fst (simplex_new (rng_new 0))) midSize midParams exOrigin
      s1 = Ok tt s2 /\
    forall x y z, cell (grid s2) x y z = cell (grid s1) x y z.
Proof.
  split.
  - apply initEmptyChunk_populated; apply small_arraySize; simpl; lia.
  - apply (terrainColumns_idempotent (O := exOracle)).
    apply initEmptyChunk_populated; apply small_arraySize; simpl; lia.
Defined.


Lemma generateTerrain_returns_iff_rows_witness :
  (forall x z, 0 <= x < width midSize -> 0 <= z < width midSize ->
     is_Some (columnHeight
                (fst (simplex_new (rng (emptyChunk (O := exOracle) midSize))))
                midSize midParams exOrigin x z)) /\
  rowsOk midSize (grid (emptyChunk (O := exOracle) midSize)) /\
  returns (generateTerrain midSize midParams exOrigin
             (emptyChunk (O := exOracle) midSize)) = true.
Proof.
  assert (Hnum : forall x z, 0 <= x < width midSize -> 0 <= z < width midSize ->
            is_Some (columnHeight
                       (fst (simplex_new
                               (rng (emptyChunk (O := exOracle) midSize))))
                       midSize midParams exOrigin x z)).
  { intros x z _ _. exists 2. reflexivity. }
  assert (Hr : rowsOk midSize (grid (emptyChunk (O := exOracle) midSize))).
  { apply populated_rowsOk, initEmptyChunk_populated;
      apply small_arraySize; simpl; lia. }
  split; [exact Hnum |]. split; [exact Hr |].
  apply (generateTerrain_returns_iff_rows (O := exOracle) midSize midParams
           exOrigin (emptyChunk midSize) Hnum).
  exact Hr.
Defined.

Lemma generateTrees_dense_canopy_is_bare_witness :
  OracleRange exOracle /\
  (1 <= density (canopy (trees bareTrees)))%Q /\
  exists t,
    trace (final (generateTrees (mkWorldSize 1 8) bareTrees exOrigin twoGrass))
    = trace twoGrass ++ t /\
    Forall trunkWrite t.
Proof.
  split; [exact (fixedOracle_range _ _ _ half_unit) |].
  split; [discriminate |].
  apply (generateTrees_dense_canopy_is_bare (O := exOracle)
           (OracleRange0 := fixedOracle_range _ _ _ half_unit)).
  discriminate.
Defined.

Lemma generateTrees_narrow_chunk_witness :
  width (mkWorldSize 1 8) <= 2 * max (size (canopy (trees tallTreeParams))) /\
  generateTrees (mkWorldSize 1 8) tallTreeParams exOrigin twoGrass
  = Ok tt (withSimplex twoGrass).
Proof.
  split; [simpl; lia |].
  apply (generateTrees_narrow_chunk (O := exOracle)). simpl. lia.
Defined.

Lemma generateTrees_without_grass_witness :
  0 <= max (size (canopy (trees oneBlockTrees))) /\
  rowsOk midSize (grid (emptyChunk (O := exOracle) midSize)) /\
  generateTrees midSize oneBlockTrees exOrigin (emptyChunk midSize)
  = Ok tt (withSimplex (emptyChunk (O := exOracle) midSize)).
Proof.
  assert (Hr : rowsOk midSize (grid (emptyChunk (O := exOracle) midSize))).
  { apply populated_rowsOk, initEmptyChunk_populated;
      apply small_arraySize; simpl; lia. }
  split; [simpl; lia |]. split; [exact Hr |].
  apply (generateTrees_without_grass (O := exOracle)).
  - simpl. lia.
  - exact Hr.
  - intros x y z _ Hg.
    destruct (emptyChunk_shaped_air midSize) as [_ Hair];
      [apply small_arraySize; simpl; lia
      | apply small_arraySize; simpl; lia |].
    apply Hair in Hg. discriminate Hg.
Defined.

Lemma scanCell_top_layer_throws_witness :
  OracleRange exOracle /\
  cell (grid topGrass) 0 (height (mkWorldSize 1 2) - 1) 0 = Some Grass /\
  exists s' : @State exOracle,
    scanCell oneBlockTrees 0 0 (height (mkWorldSize 1 2) - 1) topGrass
    = Throw TypeError s' /\
    grid s' = grid topGrass /\ trace s' = trace topGrass.
Proof.
  split; [exact (fixedOracle_range _ _ _ half_unit) |].
  split; [vm_compute; reflexivity |].
  apply (scanCell_top_layer_throws (O := exOracle)
           (OracleRange0 := fixedOracle_range _ _ _ half_unit)).
  - simpl. lia.
  - simpl. lia.
  - exact topGrass_no_row_above.
  - vm_compute. reflexivity.
Defined.

(** The surface of the column (1, 1) of the 3 x 8 x 3 world, on which a
    tree is planted, is still Grass. *)
Lemma generateChunk_ground_is_terrain_witness :
  atOrBelowSurface (O := exOracle) (mkWorldSize 3 8) fittingParams
    (mkVector3 0 0 0) 1 2 1 /\
  cell (grid (final (generateChunk (O := exOracle) exEntries
                       (mkWorldSize 3 8) fittingParams 0 0 (startState 0))))
    1 2 1
  = groundCell exEntries (mkWorldSize 3 8) fittingParams (mkVector3 0 0 0)
      1 2 1 /\
  cell (grid (final (generateChunk (O := exOracle) exEntries
                       (mkWorldSize 3 8) fittingParams 0 0 (startState 0))))
    1 2 1
  = Some Grass /\
  cell (grid (final (generateChunk (O := exOracle) exEntries
                       (mkWorldSize 3 8) fittingParams 0 0 (startState 0))))
    1 3 1
  = Some OakLog.
Proof.
  assert (Hat : atOrBelowSurface (O := exOracle) (mkWorldSize 3 8)
                  fittingParams (mkVector3 0 0 0) 1 2 1).
  { split; [unfold inVolume; simpl; lia |].
    exists 2. split; [reflexivity | lia]. }
  split; [exact Hat |].
  destruct (generateChunk_ground_is_terrain (O := exOracle) exEntries
              (mkWorldSize 3 8) fittingParams 0 0 (startState 0))
    with (x' := 1) (y' := 2) (z' := 1) as [Hcell Hgrass];
    [apply small_arraySize; simpl; lia | apply small_arraySize; simpl; lia
    | simpl; lia | exact exEntries_not_grass | exact Hat |].
  split; [exact Hcell |]. split; [apply Hgrass; reflexivity |].
  vm_compute. reflexivity.
Defined.

(** The coal at y = 1 of the column (1, 1) of the 3 x 16 x 3 world, whose
    stone band is y = 1 and y = 2. *)
Lemma generateChunk_stone_band_content_witness :
  inVolume (mkWorldSize 3 16) 1 1 1 /\
  inStoneBand (O := exOracle) (terrainNoise fittingParams) (mkWorldSize 3 16)
    fittingParams (mkVector3 0 0 0) 1 1 1 /\
  bandBlock (O := exOracle) fittingParams (mkVector3 0 0 0) exEntries 1 1 1
  = Ore 0 /\
  cell (grid (final (generateChunk (O := exOracle) exEntries
                       (mkWorldSize 3 16) fittingParams 0 0 (startState 0))))
    1 1 1
  = Some (bandBlock fittingParams (mkVector3 0 0 0) exEntries 1 1 1).
Proof.
  assert (Hv : inVolume (mkWorldSize 3 16) 1 1 1)
    by (unfold inVolume; simpl; lia).
  assert (Hb : inStoneBand (O := exOracle) (terrainNoise fittingParams)
                 (mkWorldSize 3 16) fittingParams (mkVector3 0 0 0) 1 1 1).
  { exists 4. split; [reflexivity |]. split; [lia |]. split; reflexivity. }
  split; [exact Hv |]. split; [exact Hb |]. split; [reflexivity |].
  apply (generateChunk_stone_band_content (O := exOracle) exEntries
           (mkWorldSize 3 16) fittingParams 0 0 (startState 0));
    [apply small_arraySize; simpl; lia | apply small_arraySize; simpl; lia
    | simpl; lia | exact exEntries_not_grass | exact Hv | exact Hb].
Defined.

Lemma generateChunk_bedrock_floor_witness :
  inVolume (mkWorldSize 3 8) 1 0 1 /\
  columnHeight (O := exOracle) (terrainNoise fittingParams) (mkWorldSize 3 8)
    fittingParams (mkVector3 0 0 0) 1 1 = Some 2 /\
  cell (grid (final (generateChunk (O := exOracle) exEntries
                       (mkWorldSize 3 8) fittingParams 0 0 (startState 0))))
    1 0 1
  = Some Bedrock.
Proof.
  assert (Hv : inVolume (mkWorldSize 3 8) 1 0 1)
    by (unfold inVolume; simpl; lia).
  split; [exact Hv |]. split; [reflexivity |].
  apply (generateChunk_bedrock_floor (O := exOracle) exEntries
           (mkWorldSize 3 8) fittingParams 0 0 (startState 0) ltac:(apply small_arraySize; simpl; lia)
           ltac:(apply small_arraySize; simpl; lia) ltac:(simpl; lia)
           exEntries_not_grass 1 0 1 2);
    [exact Hv | reflexivity | lia | reflexivity].
Defined.

(** A terrain with relief: the world column x = 4 has its surface at
    y = 5 and the world column x = 3 at y = 4.  The chunk at origin
    (4, 0) has Grass at y = 5 in its column (0, 0), the height that the
    origin (0, 0) gives to its column (4, 0). *)
Lemma generateChunk_surface_continuous_witness :
  (4 + ofZ 0)%float = (0 + ofZ 4)%float /\
  columnHeight (O := slopeOracle) (terrainNoise reliefParams)
    (mkWorldSize 4 16) reliefParams (mkVector3 0 0 0) 4 0 = Some 5 /\
  columnHeight (O := slopeOracle) (terrainNoise reliefParams)
    (mkWorldSize 4 16) reliefParams (mkVector3 0 0 0) 3 0 = Some 4 /\
  cell (grid (final (generateChunk (O := slopeOracle) exEntries
                       (mkWorldSize 4 16) reliefParams 4 0 (startState 0))))
    0 5 0
  = Some Grass.
Proof.
  split; [reflexivity |]. split; [reflexivity |]. split; [reflexivity |].
  apply (generateChunk_surface_continuous (O := slopeOracle) exEntries
           (mkWorldSize 4 16) reliefParams 4 0 0 0 0 0 4 0 5 (startState 0));
    [apply small_arraySize; simpl; lia | unfold maxArrayLength; simpl; lia
    | simpl; lia | exact exEntries_not_grass | simpl; lia | simpl; lia
    | reflexivity | reflexivity | reflexivity].
Defined.
